(** * mquery agent daemon (src/daemon.py): a shallow embedding

    The agent is a client of three collaborators whose code lives outside
    [daemon.py]: the job/queue store ([db.Database]), the index backend
    ([lib.ursadb.UrsaDb]) and the YARA library.  Every call to one of them
    is an [Event]; an agent method is a finite tree of such calls ([Prog]).
    The tree is run against an arbitrary environment ([Handler]), so a
    theorem proved for every handler holds whatever the store and the
    backend answer. *)

From Stdlib Require Import ZArith Ascii String List Lia.
From stdpp Require Import base decidable option list strings gmap.
Import ListNotations.
Local Open Scope string_scope.
Local Open Scope list_scope.
Local Open Scope Z_scope.

(** ** Python exceptions

    Values of this type stand for instances of [Exception]; the class is
    kept because [__execute_yara] dispatches on it. *)

Inductive ExnClass : Type :=
| RuntimeError
| SyntaxError
| YaraError            (* yara.Error *)
| FileNotFoundError
| KeyError
| TypeError
| OtherException.

Global Instance ExnClass_eq_dec : EqDecision ExnClass.
Proof. solve_decision. Defined.

(** [exn_str e] is [str(e)]. *)
Record Exn : Type := MkExn { exn_class : ExnClass; exn_str : string }.

Global Instance Exn_eq_dec : EqDecision Exn.
Proof. solve_decision. Defined.

(** ** Data model *)

(** [db.JobId]: a wrapper around the job's string key. *)
Record JobId : Type := MkJobId { job_key : string }.

Global Instance JobId_eq_dec : EqDecision JobId.
Proof. solve_decision. Defined.

(** The snapshot returned by [db.get_job].  [status] is a Python string and
    the counters are Python integers. *)
Record Job : Type := MkJob {
  status : string;
  raw_yara : string;
  taint : option string;
  total_files : Z;
  files_processed : Z;
  files_in_progress : Z;
  num_matches : Z
}.

Inductive TaskType : Type :=
| RELOAD
| SEARCH
| YARA
| OtherTask (name : string).

Record AgentTask : Type := MkAgentTask { type : TaskType; data : string }.

(** Answers of the index backend: a dictionary holding either an ["error"]
    entry or the result. *)
Inductive UrsaResponse (X : Type) : Type :=
| UrsaError (msg : string)
| UrsaOk (x : X).
Arguments UrsaError {X} msg.
Arguments UrsaOk {X} x.

Record QueryResult : Type := MkQueryResult { file_count : Z; iterator : string }.

Record PopResult : Type := MkPopResult { files : list string; iterator_empty : bool }.

(** Objects of [lib.yaraparse] and of the YARA library are opaque to the
    agent. *)
Inductive RuleAst : Type := RuleAstRef (id : nat).
Record CombinedRule : Type := MkCombinedRule { query : string }.
Inductive CompiledRule : Type := CompiledRuleRef (id : nat).

(** [metadata.Metadata] is a dictionary. *)
Abbreviation Metadata := (gmap string string).

Record PluginClass : Type := MkPluginClass {
  get_name : string;
  config_fields : list string
}.

Record MetadataPlugin : Type := MkMetadataPlugin {
  plugin_class : PluginClass;
  plugin_config : gmap string string
}.

Record MatchInfo : Type := MkMatchInfo {
  match_file : string;
  match_meta : Metadata;
  match_rules : list string
}.

(** Values produced by [json.loads], as far as the dispatcher looks into
    them: the payload of a YARA task is an object whose fields are the
    strings written by [agent_start_job].  Any other value is kept with the
    text of the [TypeError] that subscripting it with a string raises; the
    text depends on the type of the value and on the interpreter. *)
Inductive Json : Type :=
| JObject (fields : list (string * string))
| JOther (subscript_error : string).

(** ** Calls to the collaborators *)

Inductive Event : Type -> Type :=
(* db.Database *)
| GetJob (job : JobId) : Event Job
| GetYaraByJob (job : JobId) : Event string
| InitJobDatasets (group : string) (job : JobId) (datasets : list string) : Event unit
| GetNextSearchDataset (group : string) (job : JobId) : Event (option string)
| UpdateJobFiles (job : JobId) (n : Z) : Event unit
| AgentStartJob (group : string) (job : JobId) (it : string) : Event unit
| AgentContinueSearch (group : string) (job : JobId) : Event unit
| JobStartWork (job : JobId) (n : Z) : Event unit
| JobUpdateWork (job : JobId) (n : Z) (matches : Z) : Event unit
| AddMatch (job : JobId) (m : MatchInfo) : Event unit
| AgentFinishJob (job : JobId) : Event unit
| FailJob (job : JobId) (msg : string) : Event unit
| GetPluginConfigVersion : Event Z
| GetPluginConfiguration (name : string) : Event (gmap string string)
| RegisterActiveAgent (group url : string)
    (spec : list (string * list string)) (active : list string) : Event unit
| ReloadConfiguration (version : Z) : Event unit
| AgentGetTask (group : string) (version : Z) : Event AgentTask
(* lib.ursadb.UrsaDb *)
| UrsaTopology : Event (UrsaResponse (list string))
| UrsaQuery (q : string) (taint : option string) (dataset : string)
    : Event (UrsaResponse QueryResult)
| UrsaPop (it : string) (n : Z) : Event PopResult
(* lib.yaraparse *)
| ParseYara (raw : string) : Event (list RuleAst)
| CombineRules (rules : list RuleAst) : Event CombinedRule
(* yara *)
| YaraCompile (source : string) : Event CompiledRule
| RuleMatch (rule : CompiledRule) (sample : string) : Event (list string)
(* plugins *)
| PluginInit (cls : PluginClass) (config : gmap string string) : Event MetadataPlugin
(* [p.run(path, acc)] is handed the dictionary itself and may write to it:
   the answer is the content of the dictionary when the call ends, with
   what the call returned or raised *)
| PluginRun (p : MetadataPlugin) (path : string) (acc : Metadata)
    : Event (Metadata * (Exn + Metadata))
(* json *)
| JsonLoads (s : string) : Event Json.

(** ** Agent-side state

    The attributes of [self] that change after construction, together with
    the module-level LRU cache of [compile_yara] (most recently used entry
    first, keyed by [job.key]). *)

Record Agent : Type := MkAgent {
  group_id : string;
  ursa_url : string;
  plugin_config_version : Z;
  active_plugins : list MetadataPlugin;
  yara_cache : list (string * CompiledRule)
}.

Definition set_plugin_config_version (v : Z) (a : Agent) : Agent :=
  MkAgent (group_id a) (ursa_url a) v (active_plugins a) (yara_cache a).

Definition set_active_plugins (ps : list MetadataPlugin) (a : Agent) : Agent :=
  MkAgent (group_id a) (ursa_url a) (plugin_config_version a) ps (yara_cache a).

Definition set_yara_cache (c : list (string * CompiledRule)) (a : Agent) : Agent :=
  MkAgent (group_id a) (ursa_url a) (plugin_config_version a) (active_plugins a) c.

(** ** Logging *)

Inductive LogLevel : Type := INFO | ERROR | EXCEPTION.

Inductive LogArg : Type :=
| LStr (s : string)
| LInt (z : Z)
| LJobHash (job : JobId).

Record LogRecord : Type := MkLog {
  log_level : LogLevel;
  log_msg : string;
  log_args : list LogArg
}.

(** ** Programs *)

Inductive Prog (A : Type) : Type :=
| Ret (a : A)
| Raise (e : Exn)
| Log (l : LogRecord) (k : Prog A)
| GetSelf (k : Agent -> Prog A)
| PutSelf (a : Agent) (k : Prog A)
| Call {X : Type} (ev : Event X) (k : Exn + X -> Prog A).
Arguments Ret {A} a.
Arguments Raise {A} e.
Arguments Log {A} l k.
Arguments GetSelf {A} k.
Arguments PutSelf {A} a k.
Arguments Call {A X} ev k.

Fixpoint bind {A B : Type} (p : Prog A) (f : A -> Prog B) : Prog B :=
  match p with
  | Ret a => f a
  | Raise e => Raise e
  | Log l k => Log l (bind k f)
  | GetSelf k => GetSelf (fun a => bind (k a) f)
  | PutSelf a k => PutSelf a (bind k f)
  | Call ev k => Call ev (fun r => bind (k r) f)
  end.

Global Instance Prog_ret : MRet Prog := @Ret.
Global Instance Prog_bind : MBind Prog := fun A B f p => bind p f.

(** [try: p except <classes selected by catches> as e: handler e] *)
Fixpoint try_except {A : Type} (p : Prog A) (catches : Exn -> bool)
    (handler : Exn -> Prog A) : Prog A :=
  match p with
  | Ret a => Ret a
  | Raise e => if catches e then handler e else Raise e
  | Log l k => Log l (try_except k catches handler)
  | GetSelf k => GetSelf (fun a => try_except (k a) catches handler)
  | PutSelf a k => PutSelf a (try_except k catches handler)
  | Call ev k => Call ev (fun r => try_except (k r) catches handler)
  end.

(** A call that raises what the collaborator raises. *)
Definition call {X : Type} (ev : Event X) : Prog X :=
  Call ev (fun r => match r with inl e => Raise e | inr x => Ret x end).

Definition get_self : Prog Agent := GetSelf Ret.
Definition put_self (a : Agent) : Prog unit := PutSelf a (Ret tt).
Definition modify_self (f : Agent -> Agent) : Prog unit :=
  GetSelf (fun a => PutSelf (f a) (Ret tt)).

Definition logging (lvl : LogLevel) (msg : string) (args : list LogArg) : Prog unit :=
  Log (MkLog lvl msg args) (Ret tt).

(** ** Running a program against an environment *)

Definition Handler (W : Type) : Type := forall X, Event X -> W -> W * (Exn + X).

(** One call together with what the collaborator answered. *)
Inductive Interaction : Type :=
| Inter {X : Type} (ev : Event X) (r : Exn + X).

Record Outcome (W A : Type) : Type := MkOutcome {
  world : W;
  self : Agent;
  trace : list Interaction;
  logs : list LogRecord;
  result : Exn + A
}.
Arguments MkOutcome {W A} world self trace logs result.
Arguments world {W A} o.
Arguments self {W A} o.
Arguments trace {W A} o.
Arguments logs {W A} o.
Arguments result {W A} o.

Definition after {W A : Type} (t : list Interaction) (l : list LogRecord)
    (o : Outcome W A) : Outcome W A :=
  MkOutcome (world o) (self o) (t ++ trace o) (l ++ logs o) (result o).

Fixpoint run {W A : Type} (h : Handler W) (w : W) (a : Agent) (p : Prog A)
    : Outcome W A :=
  match p with
  | Ret x => MkOutcome w a [] [] (inr x)
  | Raise e => MkOutcome w a [] [] (inl e)
  | Log l k => after [] [l] (run h w a k)
  | GetSelf k => run h w a (k a)
  | PutSelf a' k => run h w a' k
  | Call ev k =>
      let '(w', r) := h _ ev w in
      after [Inter ev r] [] (run h w' a (k r))
  end.

(** ** The agent ([class Agent]) *)

(** *** [compile_yara], with the [cachetools.cached] wrapper *)

Definition CACHE_MAXSIZE : nat := 32.

Fixpoint cache_get (k : string) (c : list (string * CompiledRule))
    : option CompiledRule :=
  match c with
  | [] => None
  | (k', v) :: c' => if decide (k = k') then Some v else cache_get k c'
  end.

Definition cache_drop (k : string) (c : list (string * CompiledRule))
    : list (string * CompiledRule) :=
  filter (fun kv => kv.1 <> k) c.

(** A hit makes the entry the most recent one; a new entry evicts the least
    recent one once the cache holds [CACHE_MAXSIZE] entries. *)
Definition cache_put (k : string) (v : CompiledRule)
    (c : list (string * CompiledRule)) : list (string * CompiledRule) :=
  take CACHE_MAXSIZE ((k, v) :: cache_drop k c).

Definition is_syntax_error (e : Exn) : bool :=
  bool_decide (exn_class e = SyntaxError).

Definition compile_yara (job : JobId) : Prog CompiledRule :=
  a ← get_self;
  match cache_get (job_key job) (yara_cache a) with
  | Some rule =>
      put_self (set_yara_cache (cache_put (job_key job) rule (yara_cache a)) a);;
      Ret rule
  | None =>
      yara_rule ← call (GetYaraByJob job);
      logging INFO "Compiling Yara" [];;
      rule ← try_except (call (YaraCompile yara_rule)) is_syntax_error
        (fun e => logging EXCEPTION "Yara parse error" [];; Raise e);
      modify_self (fun a => set_yara_cache (cache_put (job_key job) rule (yara_cache a)) a);;
      Ret rule
  end.

(** [except Exception] *)
Definition any_exception (e : Exn) : bool := true.

(** A Python [dict] with string keys, as the list of its items in insertion
    order.  [d[k] = v] replaces the value of a key that is present, where
    it stands, and appends a new key. *)
Fixpoint dict_setitem {V : Type} (k : string) (v : V) (d : list (string * V))
    : list (string * V) :=
  match d with
  | [] => [(k, v)]
  | (k', v') :: d' =>
      if decide (k = k') then (k, v) :: d' else (k', v') :: dict_setitem k v d'
  end.

Section Agent.

(** [plugins.METADATA_PLUGINS] *)
Variable METADATA_PLUGINS : list PluginClass.

(** *** [Agent.__search_task] *)

Definition search_task (job_id : JobId) : Prog unit :=
  logging INFO "Parsing..." [];;
  job ← call (GetJob job_id);
  if decide (status job = "cancelled") then
    logging INFO "Job was cancelled, returning..." []
  else
    (if decide (status job = "new") then
       logging INFO "New job, generate subtasks..." [];;
       result ← call UrsaTopology;
       match result with
       | UrsaError msg => Raise (MkExn RuntimeError msg)
       | UrsaOk datasets =>
           a ← get_self;
           call (InitJobDatasets (group_id a) job_id datasets)
       end
     else Ret tt);;
    logging INFO "Get next dataset to query..." [];;
    a ← get_self;
    dataset ← call (GetNextSearchDataset (group_id a) job_id);
    match dataset with
    | None => logging INFO "Nothing to query, returning..." []
    | Some dataset =>
        rules ← call (ParseYara (raw_yara job));
        parsed ← call (CombineRules rules);
        logging INFO "Querying backend..." [];;
        result ← call (UrsaQuery (query parsed) (taint job) dataset);
        match result with
        | UrsaError msg => Raise (MkExn RuntimeError msg)
        | UrsaOk res =>
            let file_count := file_count res in
            let iterator := iterator res in
            logging INFO "Iterator {iterator} contains {file_count} files"
              [LStr iterator; LInt file_count];;
            call (UpdateJobFiles job_id file_count);;
            a ← get_self;
            call (AgentStartJob (group_id a) job_id iterator);;
            a ← get_self;
            call (AgentContinueSearch (group_id a) job_id)
        end
    end.

(** *** [Agent.__load_plugins] and [Agent.__initialize_agent] *)

Fixpoint load_plugin_classes (classes : list PluginClass)
    (active_plugins : list MetadataPlugin) : Prog (list MetadataPlugin) :=
  match classes with
  | [] => Ret active_plugins
  | plugin_class :: classes' =>
      let plugin_name := get_name plugin_class in
      plugin_config ← call (GetPluginConfiguration plugin_name);
      active_plugins' ← try_except
        (p ← call (PluginInit plugin_class plugin_config);
         logging INFO "Loaded %s plugin" [LStr plugin_name];;
         Ret (active_plugins ++ [p]))
        any_exception
        (fun _ =>
           logging EXCEPTION "Failed to load %s plugin" [LStr plugin_name];;
           Ret active_plugins);
      load_plugin_classes classes' active_plugins'
  end.

Definition load_plugins : Prog unit :=
  v ← call GetPluginConfigVersion;
  modify_self (set_plugin_config_version v);;
  active_plugins ← load_plugin_classes METADATA_PLUGINS [];
  modify_self (set_active_plugins active_plugins).

(** The dictionary comprehension of lines 122-125, on the classes of
    [METADATA_PLUGINS] in order. *)
Definition plugins_spec (classes : list PluginClass) : list (string * list string) :=
  foldl (fun d plugin_class =>
           dict_setitem (get_name plugin_class) (config_fields plugin_class) d)
        [] classes.

Definition initialize_agent : Prog unit :=
  load_plugins;;
  let plugins_spec := plugins_spec METADATA_PLUGINS in
  a ← get_self;
  call (RegisterActiveAgent (group_id a) (ursa_url a) plugins_spec
          (map (fun p => get_name (plugin_class p)) (active_plugins a))).

(** *** [Agent.__update_metadata] *)

(** [plugin.run(file_path, metadata)].  The plugin receives the dictionary
    [metadata] itself, so what it wrote to it stays written, also when the
    call raises: the result is the content of the dictionary after the call
    and what the call returned or raised.  An answer [inl e] of the
    environment is a call that raised [e] and left the dictionary as it
    was. *)
Definition call_plugin (plugin : MetadataPlugin) (file_path : string)
    (metadata : Metadata) : Prog (Metadata * (Exn + Metadata)) :=
  Call (PluginRun plugin file_path metadata)
    (fun r => Ret (match r with inl e => (metadata, inl e) | inr x => x end)).

(** The value a call returned, or the exception it raised, raised again. *)
Definition returned {A : Type} (r : Exn + A) : Prog A :=
  match r with inl e => Raise e | inr x => Ret x end.

(** The loop over [self.active_plugins]; [metadata] is the content of the
    one dictionary created at line 141. *)
Fixpoint run_plugins (plugins : list MetadataPlugin) (file_path : string)
    (metadata : Metadata) : Prog Metadata :=
  match plugins with
  | [] => Ret metadata
  | plugin :: plugins' =>
      '(metadata, r) ← call_plugin plugin file_path metadata;
      metadata' ← try_except
        (extracted_meta ← returned r;
         (* metadata.update(extracted_meta) *)
         Ret (extracted_meta ∪ metadata))
        any_exception
        (fun _ =>
           logging EXCEPTION "Failed to launch plugin %s for %s"
             [LStr (get_name (plugin_class plugin)); LStr file_path];;
           Ret metadata);
      run_plugins plugins' file_path metadata'
  end.

Definition update_metadata (job : JobId) (file_path : string)
    (matches : list string) : Prog unit :=
  a ← get_self;
  metadata ← run_plugins (active_plugins a) file_path ∅;
  let match_ := MkMatchInfo file_path metadata matches in
  call (AddMatch job match_).

(** *** [Agent.__execute_yara] *)

Definition is_yara_error (e : Exn) : bool := bool_decide (exn_class e = YaraError).
Definition is_file_not_found (e : Exn) : bool :=
  bool_decide (exn_class e = FileNotFoundError).

(** The two [except] clauses of the loop body. *)
Definition is_sample_error (e : Exn) : bool := is_yara_error e || is_file_not_found e.

Definition log_sample_error (sample : string) (e : Exn) : Prog unit :=
  if is_yara_error e then
    logging EXCEPTION "Yara failed to check file {sample}" [LStr sample]
  else
    logging EXCEPTION "Failed to open file for yara check: {sample}" [LStr sample].

(** One iteration of the loop over [files]; the result is the value of the
    local [num_matches] after it.  [num_matches += 1] comes before
    [__update_metadata] inside the same [try], so an error caught after the
    increment leaves the incremented value: the inner [try_except] is the
    part of the [try] block that runs after the increment. *)
Definition scan_sample (job : JobId) (rule : CompiledRule) (num_matches : Z)
    (sample : string) : Prog Z :=
  try_except
    (matches ← call (RuleMatch rule sample);
     match matches with
     | [] => Ret num_matches
     | _ :: _ =>
         let num_matches := num_matches + 1 in
         try_except
           (update_metadata job sample matches;; Ret num_matches)
           is_sample_error
           (fun e => log_sample_error sample e;; Ret num_matches)
     end)
    is_sample_error
    (fun e => log_sample_error sample e;; Ret num_matches).

Fixpoint scan_samples (job : JobId) (rule : CompiledRule) (num_matches : Z)
    (files : list string) : Prog Z :=
  match files with
  | [] => Ret num_matches
  | sample :: files' =>
      num_matches' ← scan_sample job rule num_matches sample;
      scan_samples job rule num_matches' files'
  end.

Definition len {A : Type} (l : list A) : Z := Z.of_nat (length l).

Definition execute_yara (job : JobId) (files : list string) : Prog unit :=
  rule ← compile_yara job;
  let num_matches := 0 in
  call (JobStartWork job (len files));;
  num_matches ← scan_samples job rule num_matches files;
  call (JobUpdateWork job (len files) num_matches).

(** *** [Agent.__yara_task] *)

Definition final_statuses : list string := ["cancelled"; "failed"; "done"].

Definition MIN_BATCH_SIZE : Z := 10.
Definition MAX_BATCH_SIZE : Z := 500.

(** Lines 190-202: the batch size computed from the snapshot [j]. *)
Definition batch_size (j : Job) : Z :=
  let taken_files := files_processed j + files_in_progress j in
  let batch_size := MAX_BATCH_SIZE in
  let batch_size := Z.min batch_size taken_files in
  let batch_size := Z.min batch_size ((total_files j - taken_files) / 4) in
  let batch_size := Z.max batch_size MIN_BATCH_SIZE in
  batch_size.

Definition yara_task (job : JobId) (iterator : string) : Prog unit :=
  j ← call (GetJob job);
  if decide (status j ∈ final_statuses) then Ret tt
  else
    let batch_size := batch_size j in
    pop_result ← call (UrsaPop iterator batch_size);
    (if iterator_empty pop_result then Ret tt
     else
       a ← get_self;
       call (AgentStartJob (group_id a) job iterator));;
    (match files pop_result with
     | [] => Ret tt
     | _ :: _ => execute_yara job (files pop_result)
     end);;
    j ← call (GetJob job);
    if bool_decide (status j = "processing") && bool_decide (files_processed j = total_files j)
    then call (AgentFinishJob job)
    else Ret tt.

(** *** [Agent.__process_task] *)

(** [repr(key)] for a key made of letters, digits and underscores, as the
    two keys the dispatcher uses are: the key between single quotes. *)
Definition repr (key : string) : string := "'" +:+ key +:+ "'".

(** [data[key]] on the value returned by [json.loads].  The [str] of the
    [KeyError] raised for a missing key is [repr(key)]. *)
Definition json_getitem (d : Json) (key : string) : Prog string :=
  match d with
  | JObject fields =>
      match list_find (fun kv => kv.1 = key) fields with
      | Some (_, (_, v)) => Ret v
      | None => Raise (MkExn KeyError (repr key))
      end
  | JOther subscript_error => Raise (MkExn TypeError subscript_error)
  end.

Definition fail_task (job : JobId) (e : Exn) : Prog unit :=
  logging EXCEPTION "Failed to execute task." [];;
  call (AgentFinishJob job);;
  call (FailJob job (exn_str e)).

Definition process_task (task : AgentTask) : Prog unit :=
  match type task with
  | RELOAD =>
      a ← get_self;
      stored ← call GetPluginConfigVersion;
      if decide (plugin_config_version a = stored) then
        logging ERROR
          "Critical error: Requested to reload configuration, but configuration present in database is still the same (%s)."
          [LInt (plugin_config_version a)]
      else
        logging INFO "Configuration changed - reloading plugins." [];;
        a ← get_self;
        call (ReloadConfiguration (plugin_config_version a));;
        initialize_agent
  | SEARCH =>
      let job := MkJobId (data task) in
      logging INFO "search: {job.hash}" [LJobHash job];;
      try_except (search_task job) any_exception (fail_task job)
  | YARA =>
      data ← call (JsonLoads (data task));
      job_field ← json_getitem data "job";
      let job := MkJobId job_field in
      iterator ← json_getitem data "iterator";
      logging INFO "yara: iterator %s" [LStr iterator];;
      try_except (yara_task job iterator) any_exception (fail_task job)
  | OtherTask _ => Raise (MkExn RuntimeError "Unsupported queue")
  end.

(** *** [Agent.main_loop]

    The loop never ends; [main_loop n] is the registration followed by the
    first [n] iterations. *)

Definition main_loop_iteration : Prog unit :=
  a ← get_self;
  task ← call (AgentGetTask (group_id a) (plugin_config_version a));
  process_task task.

Fixpoint main_loop_iterations (n : nat) : Prog unit :=
  match n with
  | O => Ret tt
  | S n' => main_loop_iteration;; main_loop_iterations n'
  end.

Definition main_loop (n : nat) : Prog unit :=
  initialize_agent;;
  main_loop_iterations n.

End Agent.

(** ** A model of the collaborators

    [db.Database], [lib.ursadb.UrsaDb] and the YARA library are not part of
    [daemon.py].  The model below follows the contracts of the operations
    table (store and backend) and is the environment in which scenarios are
    executed; the theorems about the agent's own behaviour are proved for
    every [Handler]. *)

Module Model.

(** Modelled from the spec: the store's record of one job (the snapshot, the
    active-agent counter of [agent_start_job]/[agent_finish_job], the
    datasets left to search per group, the match records and the error
    message of [fail_job]). *)
Record StoredJob : Type := MkStoredJob {
  snapshot : Job;
  active_agents : Z;
  datasets_remaining : gmap string (list string);
  matches : list MatchInfo;
  error : option string
}.

Record AgentRecord : Type := MkAgentRecord {
  agent_url : string;
  agent_spec : list (string * list string);
  agent_active : list string
}.

(** Modelled from the spec: the shared store, the backend (datasets with
    their candidate files, iterators with the files not yet popped) and the
    YARA library and plugins as oracles. *)
Record World : Type := MkWorld {
  jobs : gmap string StoredJob;
  queues : gmap string (list AgentTask);
  plugin_version : Z;
  plugin_configs : gmap string (gmap string string);
  agents : gmap string AgentRecord;
  reload_requests : list Z;
  datasets : list (string * list string);
  iterators : gmap string (list string);
  compiler : string -> Exn + CompiledRule;
  matcher : CompiledRule -> string -> Exn + list string;
  plugin_runner : MetadataPlugin -> string -> Metadata -> Exn + Metadata;
  json_values : gmap string Json
}.

Definition set_jobs (f : gmap string StoredJob -> gmap string StoredJob) (w : World) : World :=
  MkWorld (f (jobs w)) (queues w) (plugin_version w) (plugin_configs w) (agents w)
    (reload_requests w) (datasets w) (iterators w) (compiler w) (matcher w)
    (plugin_runner w) (json_values w).

Definition set_queues (f : gmap string (list AgentTask) -> gmap string (list AgentTask))
    (w : World) : World :=
  MkWorld (jobs w) (f (queues w)) (plugin_version w) (plugin_configs w) (agents w)
    (reload_requests w) (datasets w) (iterators w) (compiler w) (matcher w)
    (plugin_runner w) (json_values w).

Definition set_iterators (f : gmap string (list string) -> gmap string (list string))
    (w : World) : World :=
  MkWorld (jobs w) (queues w) (plugin_version w) (plugin_configs w) (agents w)
    (reload_requests w) (datasets w) (f (iterators w)) (compiler w) (matcher w)
    (plugin_runner w) (json_values w).

Definition set_snapshot (f : Job -> Job) (sj : StoredJob) : StoredJob :=
  MkStoredJob (f (snapshot sj)) (active_agents sj) (datasets_remaining sj)
    (matches sj) (error sj).

Definition set_status (s : string) (j : Job) : Job :=
  MkJob s (raw_yara j) (taint j) (total_files j) (files_processed j)
    (files_in_progress j) (num_matches j).

Definition is_terminal (j : Job) : bool := bool_decide (status j ∈ ["cancelled"; "failed"; "done"]).

(** Modelled from the spec: [update_job_files]: atomic [total_files += count]. *)
Definition update_job_files (count : Z) (j : Job) : Job :=
  MkJob (status j) (raw_yara j) (taint j) (total_files j + count) (files_processed j)
    (files_in_progress j) (num_matches j).

(** Modelled from the spec: [job_start_work]: atomic [files_in_progress += n]. *)
Definition job_start_work (n : Z) (j : Job) : Job :=
  MkJob (status j) (raw_yara j) (taint j) (total_files j) (files_processed j)
    (files_in_progress j + n) (num_matches j).

(** Modelled from the spec: [job_update_work]: atomic
    [files_in_progress -= n], [files_processed += n], [num_matches += matches]. *)
Definition job_update_work (n m : Z) (j : Job) : Job :=
  MkJob (status j) (raw_yara j) (taint j) (total_files j) (files_processed j + n)
    (files_in_progress j - n) (num_matches j + m).

(** Modelled from the spec: [agent_start_job] increments the active-agent
    count (the task itself goes to the group queue). *)
Definition agent_start_job (sj : StoredJob) : StoredJob :=
  MkStoredJob (snapshot sj) (active_agents sj + 1) (datasets_remaining sj)
    (matches sj) (error sj).

(** Modelled from the spec: [agent_finish_job]: decrement the active-agent
    count; if zero and [files_processed == total_files], set [done]. *)
Definition agent_finish_job (sj : StoredJob) : StoredJob :=
  let n := active_agents sj - 1 in
  let j := snapshot sj in
  MkStoredJob
    (if bool_decide (n = 0) && bool_decide (files_processed j = total_files j)
     then set_status "done" j else j)
    n (datasets_remaining sj) (matches sj) (error sj).

(** Modelled from the spec: [fail_job]: set [status = failed], record [msg]. *)
Definition fail_job (msg : string) (sj : StoredJob) : StoredJob :=
  MkStoredJob (set_status "failed" (snapshot sj)) (active_agents sj)
    (datasets_remaining sj) (matches sj) (Some msg).

(** Modelled from the spec: [add_match]: append; no-op if the job is terminal. *)
Definition add_match (m : MatchInfo) (sj : StoredJob) : StoredJob :=
  if is_terminal (snapshot sj) then sj
  else MkStoredJob (snapshot sj) (active_agents sj) (datasets_remaining sj)
         (matches sj ++ [m]) (error sj).

(** Modelled from the spec: [init_job_datasets]: idempotent; transitions
    [new] to [processing]. *)
Definition init_job_datasets (group : string) (ds : list string) (sj : StoredJob)
    : StoredJob :=
  MkStoredJob
    (if bool_decide (status (snapshot sj) = "new")
     then set_status "processing" (snapshot sj) else snapshot sj)
    (active_agents sj)
    (match datasets_remaining sj !! group with
     | Some _ => datasets_remaining sj
     | None => <[group := ds]> (datasets_remaining sj)
     end)
    (matches sj) (error sj).

Definition no_such_job : Exn := MkExn KeyError "no such job".

(** An operation on one stored job. *)
Definition on_job {X : Type} (job : JobId) (w : World)
    (f : StoredJob -> StoredJob * X) : World * (Exn + X) :=
  match jobs w !! job_key job with
  | None => (w, inl no_such_job)
  | Some sj => let '(sj', x) := f sj in
               (set_jobs (insert (job_key job) sj') w, inr x)
  end.

Definition enqueue (group : string) (t : AgentTask) (w : World) : World :=
  set_queues (fun q => <[group := default [] (q !! group) ++ [t]]> q) w.

(** The text of a YARA task.  The model does not spell out JSON: a text is
    remembered in [json_values] together with the object it encodes, and
    [json.loads] looks it up there. *)
Definition yara_payload (job : JobId) (it : string) : string :=
  job_key job +:+ " " +:+ it.

Definition enqueue_yara (group : string) (job : JobId) (it : string) (w : World) : World :=
  let w := enqueue group (MkAgentTask YARA (yara_payload job it)) w in
  MkWorld (jobs w) (queues w) (plugin_version w) (plugin_configs w) (agents w)
    (reload_requests w) (datasets w) (iterators w) (compiler w) (matcher w)
    (plugin_runner w)
    (<[yara_payload job it := JObject [("job", job_key job); ("iterator", it)]]>
       (json_values w)).

(** The model has no way to wait: asking an empty queue for a task raises. *)
Definition queue_empty : Exn := MkExn OtherException "blocked on an empty queue".

(** Modelled from the spec: the operations table of the store and of the
    backend, and the YARA library and plugins as oracles of the world. *)
Definition handle : Handler World := fun X ev =>
  match ev in Event X return World -> World * (Exn + X) with
  | GetJob job => fun w =>
      match jobs w !! job_key job with
      | None => (w, inl no_such_job)
      | Some sj => (w, inr (snapshot sj))
      end
  | GetYaraByJob job => fun w =>
      match jobs w !! job_key job with
      | None => (w, inl no_such_job)
      | Some sj => (w, inr (raw_yara (snapshot sj)))
      end
  | InitJobDatasets group job ds => fun w =>
      on_job job w (fun sj => (init_job_datasets group ds sj, tt))
  | GetNextSearchDataset group job => fun w =>
      on_job job w (fun sj =>
        match datasets_remaining sj !! group with
        | Some (d :: ds) =>
            (MkStoredJob (snapshot sj) (active_agents sj)
               (<[group := ds]> (datasets_remaining sj)) (matches sj) (error sj),
             Some d)
        | _ => (sj, None)
        end)
  | UpdateJobFiles job n => fun w =>
      on_job job w (fun sj => (set_snapshot (update_job_files n) sj, tt))
  | AgentStartJob group job it => fun w =>
      match on_job job w (fun sj => (agent_start_job sj, tt)) with
      | (w', inr tt) => (enqueue_yara group job it w', inr tt)
      | r => r
      end
  | AgentContinueSearch group job => fun w =>
      (enqueue group (MkAgentTask SEARCH (job_key job)) w, inr tt)
  | JobStartWork job n => fun w =>
      on_job job w (fun sj => (set_snapshot (job_start_work n) sj, tt))
  | JobUpdateWork job n m => fun w =>
      on_job job w (fun sj => (set_snapshot (job_update_work n m) sj, tt))
  | AddMatch job m => fun w =>
      on_job job w (fun sj => (add_match m sj, tt))
  | AgentFinishJob job => fun w =>
      on_job job w (fun sj => (agent_finish_job sj, tt))
  | FailJob job msg => fun w =>
      on_job job w (fun sj => (fail_job msg sj, tt))
  | GetPluginConfigVersion => fun w => (w, inr (plugin_version w))
  | GetPluginConfiguration name => fun w =>
      (w, inr (default ∅ (plugin_configs w !! name)))
  | RegisterActiveAgent group url spec active => fun w =>
      let changed :=
        match agents w !! group with
        | Some r => negb (bool_decide (agent_spec r = spec))
        | None => false
        end in
      (MkWorld (jobs w) (queues w)
         (if changed then plugin_version w + 1 else plugin_version w)
         (plugin_configs w)
         (<[group := MkAgentRecord url spec active]> (agents w))
         (reload_requests w) (datasets w) (iterators w) (compiler w) (matcher w)
         (plugin_runner w) (json_values w),
       inr tt)
  | ReloadConfiguration v => fun w =>
      (MkWorld (jobs w) (queues w) (plugin_version w) (plugin_configs w) (agents w)
         (reload_requests w ++ [v]) (datasets w) (iterators w) (compiler w)
         (matcher w) (plugin_runner w) (json_values w),
       inr tt)
  | AgentGetTask group version => fun w =>
      if bool_decide (plugin_version w = version) then
        match default [] (queues w !! group) with
        | [] => (w, inl queue_empty)
        | t :: ts => (set_queues (insert group ts) w, inr t)
        end
      else (w, inr (MkAgentTask RELOAD ""))
  | UrsaTopology => fun w => (w, inr (UrsaOk (map fst (datasets w))))
  | UrsaQuery q taint dataset => fun w =>
      match list_find (fun d => d.1 = dataset) (datasets w) with
      | None => (w, inr (UrsaError ("no such dataset: " +:+ dataset)))
      | Some (_, (_, fs)) =>
          let it := "iterator:" +:+ dataset in
          (set_iterators (insert it fs) w,
           inr (UrsaOk (MkQueryResult (len fs) it)))
      end
  | UrsaPop it n => fun w =>
      match iterators w !! it with
      | None => (w, inl (MkExn RuntimeError "no such iterator"))
      | Some fs =>
          let k := Z.to_nat n in
          (set_iterators (insert it (drop k fs)) w,
           inr (MkPopResult (take k fs) (bool_decide (drop k fs = []))))
      end
  | ParseYara raw => fun w => (w, inr [RuleAstRef 0])
  | CombineRules rules => fun w => (w, inr (MkCombinedRule "{}"))
  | YaraCompile source => fun w => (w, compiler w source)
  | RuleMatch rule sample => fun w => (w, matcher w rule sample)
  | PluginInit cls config => fun w => (w, inr (MkMetadataPlugin cls config))
  | PluginRun p path acc => fun w =>
      (* the plugins of the model leave the dictionary they are handed as it is *)
      (w, match plugin_runner w p path acc with
          | inl e => inl e
          | inr extracted => inr (acc, inr extracted)
          end)
  | JsonLoads s => fun w =>
      match json_values w !! s with
      | Some v => (w, inr v)
      | None => (w, inl (MkExn OtherException "Expecting value"))
      end
  end.

End Model.

(** * Properties *)

(** Closed decidable propositions are settled by evaluation. *)
Ltac by_decide := apply (bool_decide_unpack _); vm_compute; exact I.

(** ** Laws of [run] *)

Section RunLaws.
Context {W : Type} (h : Handler W).

Lemma after_nil {A} (o : Outcome W A) : after [] [] o = o.
Proof. by destruct o. Qed.

Lemma after_after {A} t1 l1 t2 l2 (o : Outcome W A) :
  after t1 l1 (after t2 l2 o) = after (t1 ++ t2) (l1 ++ l2) o.
Proof. unfold after; simpl. by rewrite !app_assoc. Qed.

(** What remains to be run after [p]: [f] on the value of [p], or nothing
    when [p] raised. *)
Definition and_then {A B} (o : Outcome W A) (f : A -> W -> Agent -> Outcome W B)
    : Outcome W B :=
  match result o with
  | inr x => after (trace o) (logs o) (f x (world o) (self o))
  | inl e => MkOutcome (world o) (self o) (trace o) (logs o) (inl e)
  end.

Lemma and_then_after {A B} t l (o : Outcome W A) (f : A -> W -> Agent -> Outcome W B) :
  and_then (after t l o) f = after t l (and_then o f).
Proof.
  unfold and_then; simpl. destruct (result o); simpl.
  - unfold after; simpl. done.
  - by rewrite after_after.
Qed.

Lemma run_bind {A B} (p : Prog A) (f : A -> Prog B) w a :
  run h w a (bind p f) = and_then (run h w a p) (fun x w' a' => run h w' a' (f x)).
Proof.
  revert w a; induction p as [x|e|l k IH|k IH|a' k IH|X ev k IH]; intros w a; simpl.
  - unfold and_then; simpl. by rewrite after_nil.
  - done.
  - by rewrite IH, and_then_after.
  - apply IH.
  - apply IH.
  - destruct (h X ev w) as [w' r]. by rewrite IH, and_then_after.
Qed.

Lemma run_mbind {A B} (p : Prog A) (f : A -> Prog B) w a :
  run h w a (p ≫= f) = and_then (run h w a p) (fun x w' a' => run h w' a' (f x)).
Proof. apply run_bind. Qed.

(** The handler of a [try] runs where the body stopped. *)
Definition or_else {A} (o : Outcome W A) (catches : Exn -> bool)
    (f : Exn -> W -> Agent -> Outcome W A) : Outcome W A :=
  match result o with
  | inl e => if catches e then after (trace o) (logs o) (f e (world o) (self o)) else o
  | inr _ => o
  end.

Lemma or_else_after {A} t l (o : Outcome W A) c f :
  or_else (after t l o) c f = after t l (or_else o c f).
Proof.
  unfold or_else; simpl. destruct (result o) as [e|x]; [|done].
  destruct (c e); [|done]. by rewrite after_after.
Qed.

Lemma run_try_except {A} (p : Prog A) c hd w a :
  run h w a (try_except p c hd)
  = or_else (run h w a p) c (fun e w' a' => run h w' a' (hd e)).
Proof.
  revert w a; induction p as [x|e|l k IH|k IH|a' k IH|X ev k IH]; intros w a; simpl.
  - done.
  - unfold or_else; simpl. destruct (c e); [|done]. by rewrite after_nil.
  - by rewrite IH, or_else_after.
  - apply IH.
  - apply IH.
  - destruct (h X ev w) as [w' r]. by rewrite IH, or_else_after.
Qed.

Lemma run_call {X} (ev : Event X) w a :
  run h w a (call ev)
  = MkOutcome (h X ev w).1 a [Inter ev (h X ev w).2] []
      (match (h X ev w).2 with inl e => inl e | inr x => inr x end).
Proof.
  unfold call; simpl. destruct (h X ev w) as [w' [e|x]]; reflexivity.
Qed.

End RunLaws.

(** ** Scenario data shared by the examples *)

Module Scenario.
Import Model.

Definition agent0 : Agent := MkAgent "default" "tcp://ursadb:9281" 1 [] [].

Definition job_id0 : JobId := MkJobId "job:0123456789AB".

Definition yara0 : string := "rule r { strings: $a = { 61 62 63 } condition: $a }".

Definition mk_job (st : string) (total processed in_progress : Z) : Job :=
  MkJob st yara0 None total processed in_progress 0.

(** The YARA library of the scenarios: every source compiles; the rule
    matches the samples whose name starts with [m], fails with [yara.Error]
    on those starting with [y] and with [FileNotFoundError] on those
    starting with [x]. *)
Definition matcher0 (r : CompiledRule) (sample : string) : Exn + list string :=
  match sample with
  | String "m"%char _ => inr ["r"]
  | String "y"%char _ => inl (MkExn YaraError "internal error: 30")
  | String "x"%char _ => inl (MkExn FileNotFoundError "No such file or directory")
  | _ => inr []
  end.

(** A world holding one job and one iterator over [fs]. *)
Definition world_with (j : Job) (active : Z) (it : string) (fs : list string) : World :=
  MkWorld {[ job_key job_id0 := MkStoredJob j active ∅ [] None ]} ∅ 1 ∅ ∅ []
    [("ds0", fs)] {[ it := fs ]}
    (fun _ => inr (CompiledRuleRef 0)) matcher0 (fun _ _ _ => inr ∅) ∅.

(** A world for [main_loop]: the job is new, the backend holds [backend],
    and the SEARCH task of the job waits on the queue of the group. *)
Definition new_job_world (backend : list (string * list string)) : World :=
  MkWorld {[ job_key job_id0 := MkStoredJob (mk_job "new" 0 0 0) 0 ∅ [] None ]}
    {[ group_id agent0 := [MkAgentTask SEARCH (job_key job_id0)] ]} 1 ∅ ∅ []
    backend ∅
    (fun _ => inr (CompiledRuleRef 0)) matcher0 (fun _ _ _ => inr ∅) ∅.

(** A job whose next dataset is unknown to the backend: the query fails. *)
Definition lost_dataset_world : World :=
  MkWorld
    {[ job_key job_id0 :=
         MkStoredJob (mk_job "processing" 0 0 0) 0
           {[ group_id agent0 := ["gone"] ]} [] None ]}
    ∅ 1 ∅ ∅ [] [] ∅
    (fun _ => inr (CompiledRuleRef 0)) matcher0 (fun _ _ _ => inr ∅) ∅.

(** A YARA task whose iterator the backend no longer knows: the pop raises. *)
Definition lost_iterator_world : World :=
  MkWorld {[ job_key job_id0 := MkStoredJob (mk_job "processing" 5 0 0) 1 ∅ [] None ]}
    ∅ 1 ∅ ∅ [] [] ∅
    (fun _ => inr (CompiledRuleRef 0)) matcher0 (fun _ _ _ => inr ∅)
    {[ yara_payload job_id0 "it" :=
         JObject [("job", job_key job_id0); ("iterator", "it")] ]}.

(** The sizes of the batches the agent asked the backend for. *)
Definition pop_sizes (t : list Interaction) : list Z :=
  omap (fun i => match i with
                 | Inter ev _ => match ev with UrsaPop _ n => Some n | _ => None end
                 end) t.

(** A store whose only state is the plugin-config version: it answers the
    calls of the reload protocol and leaves the version as it is. *)
Definition version_store : Handler Z := fun X ev =>
  match ev in Event X return Z -> Z * (Exn + X) with
  | GetPluginConfigVersion => fun v => (v, inr v)
  | GetPluginConfiguration _ => fun v => (v, inr ∅)
  | PluginInit cls config => fun v => (v, inr (MkMetadataPlugin cls config))
  | RegisterActiveAgent _ _ _ _ => fun v => (v, inr tt)
  | ReloadConfiguration _ => fun v => (v, inr tt)
  | _ => fun v => (v, inl (MkExn OtherException "not part of the reload protocol"))
  end.

Definition plugin0 : PluginClass := MkPluginClass "TestPlugin" ["url"].

(** The number of batches handed to [__execute_yara]. *)
Definition scans (t : list Interaction) : nat :=
  length (omap (fun i => match i with
                         | Inter ev _ =>
                             match ev with JobStartWork _ n => Some n | _ => None end
                         end) t).

(** A job in status [st] that still has the dataset [ds0] to search. *)
Definition pending_dataset_world (st : string) : World :=
  MkWorld
    {[ job_key job_id0 :=
         MkStoredJob (mk_job st 0 0 0) 0 {[ group_id agent0 := ["ds0"] ]} [] None ]}
    ∅ 1 ∅ ∅ [] [("ds0", ["a"; "b"; "c"])] ∅
    (fun _ => inr (CompiledRuleRef 0)) matcher0 (fun _ _ _ => inr ∅) ∅.

(** The snapshot of the scenario's job. *)
Definition job_snapshot (w : World) : option Job :=
  snapshot <$> jobs w !! job_key job_id0.

(** Status and error message of the scenario's job. *)
Definition job_state (w : World) : option (string * option string) :=
  (fun sj => (status (snapshot sj), error sj)) <$> jobs w !! job_key job_id0.

End Scenario.

(** ** Adaptive batch size *)

Lemma batch_size_eq (j : Job) :
  batch_size j
  = Z.max MIN_BATCH_SIZE
      (Z.min (Z.min MAX_BATCH_SIZE (files_processed j + files_in_progress j))
         ((total_files j - (files_processed j + files_in_progress j)) / 4)).
Proof. unfold batch_size. apply Z.max_comm. Qed.

Lemma batch_size_bounds (j : Job) : 10 ≤ batch_size j ≤ 500.
Proof. unfold batch_size, MIN_BATCH_SIZE, MAX_BATCH_SIZE. lia. Qed.

Lemma yara_task_head {W} (h : Handler W) w w1 a job it j :
  h _ (GetJob job) w = (w1, inr j) ->
  status j ∉ final_statuses ->
  exists o : Outcome W unit,
    run h w a (yara_task job it)
    = after [Inter (GetJob job) (inr j);
             Inter (UrsaPop it (batch_size j)) (h _ (UrsaPop it (batch_size j)) w1).2]
        [] o.
Proof.
  intros Hget Hst.
  remember (run h w a (yara_task job it)) as o0 eqn:Ho. unfold yara_task in Ho.
  simpl in Ho. rewrite Hget in Ho. simpl in Ho.
  destruct (decide (status j ∈ final_statuses)) as [?|_]; [done|].
  simpl in Ho.
  destruct (h _ (UrsaPop it (batch_size j)) w1) as [w2 [e|pop]]; simpl in *;
    rewrite after_after in Ho; subst o0; eauto.
Qed.

(** C1. For every job snapshot, with [taken = files_processed +
    files_in_progress] and [remaining = total_files - taken], the batch size
    computed by the scan handler is
    [max(MIN_BATCH, min(MAX_BATCH, taken, remaining // 4))] with
    [MIN_BATCH = 10] and [MAX_BATCH = 500]; it lies between 10 and 500, it
    is 10 for a fresh job ([taken = 0]), and it is the size the handler
    asks the backend to pop, in every environment in which the job is not
    in a final status. *)
Theorem batch_size_adaptive (j : Job) :
  let taken := files_processed j + files_in_progress j in
  let remaining := total_files j - taken in
  (MIN_BATCH_SIZE = 10 ∧ MAX_BATCH_SIZE = 500)
  ∧ batch_size j
    = Z.max MIN_BATCH_SIZE (Z.min (Z.min MAX_BATCH_SIZE taken) (remaining / 4))
  ∧ 10 ≤ batch_size j ≤ 500
  ∧ (taken = 0 -> batch_size j = 10)
  ∧ (forall W (h : Handler W) w w1 a job it,
       h _ (GetJob job) w = (w1, inr j) ->
       status j ∉ final_statuses ->
       exists r,
         trace (run h w a (yara_task job it)) !! 1%nat
         = Some (Inter (UrsaPop it (batch_size j)) r)).
Proof.
  intros taken remaining. split; [done|]. split; [apply batch_size_eq|].
  split; [apply batch_size_bounds|]. split.
  - intros Htaken. unfold batch_size, MIN_BATCH_SIZE, MAX_BATCH_SIZE.
    fold taken. rewrite Htaken. lia.
  - intros W h w w1 a job it Hget Hst.
    destruct (yara_task_head h w w1 a job it j Hget Hst) as [o ->].
    simpl. eauto.
Qed.

(** The batch of a fresh job of five files, and the pop the handler issues
    for it. *)
Lemma batch_size_adaptive_witness :
  batch_size (Scenario.mk_job "processing" 5 0 0) = 10
  ∧ exists r,
      trace (run Model.handle
               (Scenario.world_with (Scenario.mk_job "processing" 5 0 0) 1 "it"
                  ["a"; "b"; "c"; "d"; "e"])
               Scenario.agent0 (yara_task Scenario.job_id0 "it")) !! 1%nat
      = Some (Inter (UrsaPop "it" 10) r).
Proof.
  pose proof (batch_size_adaptive (Scenario.mk_job "processing" 5 0 0)) as H.
  cbv zeta in H. destruct H as (_ & _ & _ & Hfresh & Hpop). split.
  - apply Hfresh. reflexivity.
  - eapply (Hpop _ Model.handle); [reflexivity | by_decide].
Defined.

(** ** A task for a job in a final status *)

(** C2. When the snapshot read by the scan handler has a status among
    [cancelled], [failed] and [done], the handler returns at once: its only
    interaction with the collaborators is that [get_job] read.  No [pop]
    reaches the backend, no YARA scan runs, no store mutation
    ([job_start_work], [job_update_work], [add_match], [agent_start_job],
    [agent_finish_job]) is called, nothing is logged and the agent's own
    state is unchanged; the world is the one the read left. *)
Theorem yara_task_final_status_noop {W} (h : Handler W) w w1 a job it j :
  h _ (GetJob job) w = (w1, inr j) ->
  status j ∈ final_statuses ->
  run h w a (yara_task job it)
  = MkOutcome w1 a [Inter (GetJob job) (inr j)] [] (inr tt).
Proof.
  intros Hget Hst. unfold yara_task. simpl. rewrite Hget. simpl.
  destruct (decide (status j ∈ final_statuses)) as [_|?]; [|done].
  reflexivity.
Qed.

(** A cancelled job with files still in its iterator: the task leaves the
    store and the iterator exactly as they were. *)
Lemma yara_task_final_status_noop_witness :
  let w := Scenario.world_with (Scenario.mk_job "cancelled" 5 0 0) 1 "it"
             ["a"; "b"; "c"; "d"; "e"] in
  run Model.handle w Scenario.agent0 (yara_task Scenario.job_id0 "it")
  = MkOutcome w Scenario.agent0
      [Inter (GetJob Scenario.job_id0) (inr (Scenario.mk_job "cancelled" 5 0 0))]
      [] (inr tt).
Proof.
  intros w.
  apply (yara_task_final_status_noop Model.handle w w Scenario.agent0
           Scenario.job_id0 "it" (Scenario.mk_job "cancelled" 5 0 0)).
  - reflexivity.
  - by_decide.
Defined.

(** ** The dispatcher's exception boundary *)

Lemma run_logging {W} (h : Handler W) w a lvl msg args :
  run h w a (logging lvl msg args) = MkOutcome w a [] [MkLog lvl msg args] (inr tt).
Proof. reflexivity. Qed.

Lemma run_get_self {W} (h : Handler W) w a :
  run h w a get_self = MkOutcome w a [] [] (inr a).
Proof. reflexivity. Qed.

Lemma run_call_ok {W} (h : Handler W) {X} (ev : Event X) w w' a x :
  h X ev w = (w', inr x) ->
  run h w a (call ev) = MkOutcome w' a [Inter ev (inr x)] [] (inr x).
Proof. intros H. by rewrite run_call, H. Qed.

(** What the [except] clause of the dispatcher does: [fail_job] is called
    only if [agent_finish_job] returned, and the result of the clause is
    that of the call that raised, or of [fail_job]. *)
Lemma run_fail_task {W} (h : Handler W) w a job e :
  (forall w2 e2,
     h _ (AgentFinishJob job) w = (w2, inl e2) ->
     run h w a (fail_task job e)
     = MkOutcome w2 a [Inter (AgentFinishJob job) (inl e2)]
         [MkLog EXCEPTION "Failed to execute task." []] (inl e2))
  ∧ (forall w2 w3 r,
       h _ (AgentFinishJob job) w = (w2, inr tt) ->
       h _ (FailJob job (exn_str e)) w2 = (w3, r) ->
       run h w a (fail_task job e)
       = MkOutcome w3 a
           [Inter (AgentFinishJob job) (inr tt); Inter (FailJob job (exn_str e)) r]
           [MkLog EXCEPTION "Failed to execute task." []] r).
Proof.
  split.
  - intros w2 e2 Hfinish. unfold fail_task.
    rewrite run_mbind, run_logging. unfold and_then at 1; simpl.
    rewrite Hfinish; simpl. reflexivity.
  - intros w2 w3 r Hfinish Hfail. unfold fail_task.
    rewrite run_mbind, run_logging. unfold and_then at 1; simpl.
    rewrite Hfinish; simpl. rewrite Hfail; simpl. by destruct r as [e3|[]].
Qed.

(** A handler run under the dispatcher's [try]: a normal return is kept, an
    exception is replaced by the outcome of [fail_task]. *)
Lemma run_guarded {W} (h : Handler W) (p : Prog unit) w a job :
  run h w a (try_except p any_exception (fail_task job))
  = match result (run h w a p) with
    | inr _ => run h w a p
    | inl e =>
        let o := run h w a p in
        after (trace o) (logs o) (run h (world o) (self o) (fail_task job e))
    end.
Proof.
  rewrite run_try_except. unfold or_else.
  by destruct (result (run h w a p)).
Qed.

Definition search_log (job : JobId) : LogRecord :=
  MkLog INFO "search: {job.hash}" [LJobHash job].
Definition yara_log (it : string) : LogRecord :=
  MkLog INFO "yara: iterator %s" [LStr it].
Definition failed_log : LogRecord :=
  MkLog EXCEPTION "Failed to execute task." [].

(** Under the dispatcher's [try], after the log line: a handler that
    raised is followed by the [except] clause. *)
Lemma run_guarded_failure {W} (h : Handler W) (p : Prog unit) w a job e
    (t : list Interaction) (l : list LogRecord) :
  result (run h w a p) = inl e ->
  let o := run h w a p in
  (forall w2 e2,
     h _ (AgentFinishJob job) (world o) = (w2, inl e2) ->
     after t l (run h w a (try_except p any_exception (fail_task job)))
     = MkOutcome w2 (self o) (t ++ trace o ++ [Inter (AgentFinishJob job) (inl e2)])
         (l ++ logs o ++ [failed_log]) (inl e2))
  ∧ (forall w2 w3 r,
       h _ (AgentFinishJob job) (world o) = (w2, inr tt) ->
       h _ (FailJob job (exn_str e)) w2 = (w3, r) ->
       after t l (run h w a (try_except p any_exception (fail_task job)))
       = MkOutcome w3 (self o)
           (t ++ trace o
            ++ [Inter (AgentFinishJob job) (inr tt); Inter (FailJob job (exn_str e)) r])
           (l ++ logs o ++ [failed_log]) r).
Proof.
  intros Hres o. fold o in Hres.
  destruct (run_fail_task h (world o) (self o) job e) as [Hraise Hboth].
  split.
  - intros w2 e2 Hfinish. rewrite run_guarded. fold o. rewrite Hres. cbv zeta.
    rewrite (Hraise w2 e2 Hfinish). unfold after; cbn [world self trace logs result].
    by rewrite !app_assoc.
  - intros w2 w3 r Hfinish Hfail. rewrite run_guarded. fold o. rewrite Hres. cbv zeta.
    rewrite (Hboth w2 w3 r Hfinish Hfail). unfold after; cbn [world self trace logs result].
    by rewrite !app_assoc.
Qed.

(** A store that cannot be reached. *)
Definition unreachable_store : Handler unit := fun X ev w =>
  (w, inl (MkExn OtherException "connection refused")).

(** With the store down, the search handler raises on its first call, the
    [agent_finish_job] of the [except] clause raises too, [fail_job] is
    never called, and the exception leaves the dispatcher. *)
Lemma dispatcher_exception_boundary_counterexample :
  let down := MkExn OtherException "connection refused" in
  let o := run unreachable_store tt Scenario.agent0 (search_task Scenario.job_id0) in
  let o' := run unreachable_store tt Scenario.agent0
              (process_task [] (MkAgentTask SEARCH (job_key Scenario.job_id0))) in
  result o = inl down
  ∧ result o' = inl down
  ∧ trace o'
    = [Inter (GetJob Scenario.job_id0) (inl down);
       Inter (AgentFinishJob Scenario.job_id0) (inl down)].
Proof. repeat split. Qed.

(** C3 (amended). An exception raised by the search handler or by the scan
    handler is caught by the dispatcher, which logs it and calls
    [agent_finish_job] on the job.  If that call raises, its exception
    leaves the dispatcher and [fail_job] is not called.  If it returns,
    the dispatcher calls [fail_job] with [str(e)], and the result of the
    dispatcher is the result of that call: it returns normally when
    [fail_job] returns, and an exception raised by [fail_job] leaves the
    dispatcher.  A task whose type is none of RELOAD, SEARCH and YARA makes
    the dispatcher raise [RuntimeError] before it touches any
    collaborator. *)
Theorem dispatcher_exception_boundary {W} (h : Handler W) (plugins : list PluginClass) :
  (forall w a d e,
     let job := MkJobId d in
     let o := run h w a (search_task job) in
     let o' := run h w a (process_task plugins (MkAgentTask SEARCH d)) in
     result o = inl e ->
     (forall w2 e2,
        h _ (AgentFinishJob job) (world o) = (w2, inl e2) ->
        o' = MkOutcome w2 (self o)
               (trace o ++ [Inter (AgentFinishJob job) (inl e2)])
               (search_log job :: logs o ++ [failed_log]) (inl e2))
     ∧ (forall w2 w3 r,
          h _ (AgentFinishJob job) (world o) = (w2, inr tt) ->
          h _ (FailJob job (exn_str e)) w2 = (w3, r) ->
          o' = MkOutcome w3 (self o)
                 (trace o ++ [Inter (AgentFinishJob job) (inr tt);
                              Inter (FailJob job (exn_str e)) r])
                 (search_log job :: logs o ++ [failed_log]) r))
  ∧ (forall w a d w0 payload jk it e,
       h _ (JsonLoads d) w = (w0, inr payload) ->
       json_getitem payload "job" = Ret jk ->
       json_getitem payload "iterator" = Ret it ->
       let job := MkJobId jk in
       let o := run h w0 a (yara_task job it) in
       let o' := run h w a (process_task plugins (MkAgentTask YARA d)) in
       result o = inl e ->
       (forall w2 e2,
          h _ (AgentFinishJob job) (world o) = (w2, inl e2) ->
          o' = MkOutcome w2 (self o)
                 (Inter (JsonLoads d) (inr payload) :: trace o
                  ++ [Inter (AgentFinishJob job) (inl e2)])
                 (yara_log it :: logs o ++ [failed_log]) (inl e2))
       ∧ (forall w2 w3 r,
            h _ (AgentFinishJob job) (world o) = (w2, inr tt) ->
            h _ (FailJob job (exn_str e)) w2 = (w3, r) ->
            o' = MkOutcome w3 (self o)
                   (Inter (JsonLoads d) (inr payload) :: trace o
                    ++ [Inter (AgentFinishJob job) (inr tt);
                        Inter (FailJob job (exn_str e)) r])
                   (yara_log it :: logs o ++ [failed_log]) r))
  ∧ (forall w a name d,
       run h w a (process_task plugins (MkAgentTask (OtherTask name) d))
       = MkOutcome w a [] [] (inl (MkExn RuntimeError "Unsupported queue"))).
Proof.
  split; [|split].
  - intros w a d e job o o' Hres.
    assert (o' = after [] [search_log job]
                   (run h w a (try_except (search_task job) any_exception (fail_task job))))
      as ->.
    { unfold o', process_task; cbn [type data].
      rewrite run_mbind, run_logging. by unfold and_then. }
    destruct (run_guarded_failure h (search_task job) w a job e [] [search_log job] Hres)
      as [Hraise Hboth].
    split.
    + intros w2 e2 Hfinish. by rewrite (Hraise w2 e2 Hfinish).
    + intros w2 w3 r Hfinish Hfail. by rewrite (Hboth w2 w3 r Hfinish Hfail).
  - intros w a d w0 payload jk it e Hjson Hjob Hit job o o' Hres.
    assert (o' = after [Inter (JsonLoads d) (inr payload)] [yara_log it]
                   (run h w0 a
                      (try_except (yara_task job it) any_exception (fail_task job))))
      as ->.
    { unfold o', process_task; cbn [type data].
      rewrite run_mbind, (run_call_ok h _ _ _ _ _ Hjson).
      unfold and_then at 1; cbn [result world self trace logs].
      rewrite Hjob. cbn [mbind Prog_bind bind]. rewrite Hit. cbn [mbind Prog_bind bind].
      rewrite run_mbind, run_logging. unfold and_then; cbn [result world self trace logs].
      by rewrite after_after. }
    destruct (run_guarded_failure h (yara_task job it) w0 a job e
                [Inter (JsonLoads d) (inr payload)] [yara_log it] Hres)
      as [Hraise Hboth].
    split.
    + intros w2 e2 Hfinish. by rewrite (Hraise w2 e2 Hfinish).
    + intros w2 w3 r Hfinish Hfail. by rewrite (Hboth w2 w3 r Hfinish Hfail).
  - intros w a name d. reflexivity.
Qed.

(** A failed backend query and a failed pop with a store that answers: in
    both cases the dispatcher returns normally and the store holds the job
    as failed, with the message of the exception. *)
Lemma dispatcher_exception_boundary_witness :
  (let o := run Model.handle Scenario.lost_dataset_world Scenario.agent0
              (process_task [] (MkAgentTask SEARCH (job_key Scenario.job_id0))) in
   result o = inr tt
   ∧ Scenario.job_state (world o) = Some ("failed", Some "no such dataset: gone"))
  ∧ (let o := run Model.handle Scenario.lost_iterator_world Scenario.agent0
                (process_task []
                   (MkAgentTask YARA (Model.yara_payload Scenario.job_id0 "it"))) in
     result o = inr tt
     ∧ Scenario.job_state (world o) = Some ("failed", Some "no such iterator")).
Proof.
  destruct (dispatcher_exception_boundary Model.handle []) as (Hsearch & Hyara & _).
  split; cbv zeta.
  - edestruct (Hsearch Scenario.lost_dataset_world Scenario.agent0
                 (job_key Scenario.job_id0)) as [_ Hboth]; [vm_compute; reflexivity|].
    erewrite Hboth; [|vm_compute; reflexivity ..]. split; vm_compute; reflexivity.
  - edestruct (Hyara Scenario.lost_iterator_world Scenario.agent0
                 (Model.yara_payload Scenario.job_id0 "it")) as [_ Hboth];
      [vm_compute; reflexivity ..|].
    erewrite Hboth; [|vm_compute; reflexivity ..]. split; vm_compute; reflexivity.
Defined.

(** ** Per-file error isolation in [__execute_yara] *)

(** Observations on a trace: the samples handed to [rule.match], the number
    of samples on which it returned a non-empty list, and whether the only
    failures are those the scan loop is written to survive (a
    [yara.Error] or [FileNotFoundError] from [rule.match], anything from a
    plugin). *)
Definition scanned (i : Interaction) : option string :=
  match i with
  | Inter ev _ => match ev with RuleMatch _ sample => Some sample | _ => None end
  end.

Definition is_hit (i : Interaction) : bool :=
  match i with
  | Inter ev r =>
      match ev in Event X return Exn + X -> bool with
      | RuleMatch _ _ => fun r => match r with inr (_ :: _) => true | _ => false end
      | _ => fun _ => false
      end r
  end.

Definition tolerated (i : Interaction) : bool :=
  match i with
  | Inter ev r =>
      match r with
      | inr _ => true
      | inl e =>
          match ev with
          | RuleMatch _ _ => is_sample_error e
          | PluginRun _ _ _ => true
          | _ => false
          end
      end
  end.

Definition samples (t : list Interaction) : list string := omap scanned t.
Fixpoint hits (t : list Interaction) : Z :=
  match t with
  | [] => 0
  | i :: t' => (if is_hit i then 1 else 0) + hits t'
  end.

Lemma samples_app t1 t2 : samples (t1 ++ t2) = samples t1 ++ samples t2.
Proof. apply omap_app. Qed.

Lemma hits_app t1 t2 : hits (t1 ++ t2) = hits t1 + hits t2.
Proof. induction t1 as [|i t1 IH]; simpl; [done|]. rewrite IH. lia. Qed.

Lemma hits_nonneg t : 0 ≤ hits t.
Proof. induction t as [|i t IH]; simpl; [done|]. destruct (is_hit i); lia. Qed.

Section ScanLoop.
Context {W : Type} (h : Handler W).

Lemma run_plugins_total ps path md w a :
  let o := run h w a (run_plugins ps path md) in
  (exists md', result o = inr md')
  ∧ samples (trace o) = [] ∧ hits (trace o) = 0.
Proof.
  revert md w; induction ps as [|p ps IH]; intros md w; simpl.
  - eauto.
  - destruct (h _ (PluginRun p path md) w) as [w' [e|[md1 [e|extracted]]]]; simpl.
    + destruct (IH md w') as ((md' & Hres) & Hs & Hh).
      rewrite Hs, Hh, Hres. eauto.
    + destruct (IH md1 w') as ((md' & Hres) & Hs & Hh).
      rewrite Hs, Hh, Hres. eauto.
    + destruct (IH (extracted ∪ md1) w') as ((md' & Hres) & Hs & Hh).
      rewrite Hs, Hh, Hres. eauto.
Qed.

Lemma forallb_tolerated_app t1 t2 :
  forallb tolerated (t1 ++ t2) = true ->
  forallb tolerated t1 = true ∧ forallb tolerated t2 = true.
Proof. rewrite forallb_app. apply andb_prop. Qed.

Lemma update_metadata_tolerated job path ms w a :
  let o := run h w a (update_metadata job path ms) in
  forallb tolerated (trace o) = true ->
  result o = inr tt ∧ samples (trace o) = [] ∧ hits (trace o) = 0.
Proof.
  cbv zeta. remember (run h w a (update_metadata job path ms)) as o eqn:Ho.
  unfold update_metadata in Ho. rewrite run_mbind, run_get_self in Ho.
  unfold and_then at 1 in Ho; cbn [result world self trace logs] in Ho.
  rewrite after_nil, run_mbind in Ho.
  destruct (run_plugins_total (active_plugins a) path ∅ w a) as ((md & Hres) & Hs & Hh).
  unfold and_then in Ho. rewrite Hres, run_call in Ho.
  destruct (h _ (AddMatch job (MkMatchInfo path md ms)) _) as [w' [e|[]]];
    subst o; unfold after; cbn [result world self trace logs fst snd].
  - intros Htol. apply forallb_tolerated_app in Htol as [_ Htol]. discriminate Htol.
  - intros _. rewrite samples_app, hits_app, Hs, Hh. done.
Qed.

Lemma run_log_sample_error sample e w a :
  exists l, run h w a (log_sample_error sample e) = MkOutcome w a [] [l] (inr tt).
Proof. unfold log_sample_error. destruct (is_yara_error e); eauto. Qed.

(** The part of the loop body that follows [num_matches += 1]. *)
Lemma run_matched_tolerated job sample ms (k : Z) w a :
  let o := run h w a
             (try_except (update_metadata job sample ms;; Ret k) is_sample_error
                (fun e => log_sample_error sample e;; Ret k)) in
  forallb tolerated (trace o) = true ->
  result o = inr k ∧ samples (trace o) = [] ∧ hits (trace o) = 0.
Proof.
  cbv zeta. remember (run h w a (try_except _ _ _)) as o eqn:Ho.
  rewrite run_try_except, run_mbind in Ho.
  pose proof (update_metadata_tolerated job sample ms w a) as Hum. cbv zeta in Hum.
  destruct (run h w a (update_metadata job sample ms)) as [uw ua ut ul [e|[]]];
    unfold or_else, and_then in Ho; cbn [result world self trace logs] in *.
  - destruct (is_sample_error e).
    + rewrite run_mbind in Ho.
      destruct (run_log_sample_error sample e uw ua) as [l Hl]. rewrite Hl in Ho.
      unfold and_then, after in Ho; cbn [run result world self trace logs] in Ho.
      rewrite !app_nil_r in Ho. subst o; cbn [result trace].
      intros Htol. by destruct (Hum Htol).
    + subst o; cbn [result trace]. intros Htol. by destruct (Hum Htol).
  - unfold after in Ho; cbn [run result world self trace logs] in Ho.
    rewrite app_nil_r in Ho. subst o; cbn [result trace].
    intros Htol. destruct (Hum Htol) as (_ & Hs & Hh). done.
Qed.

(** One sample under tolerated failures: the iteration returns, the sample
    was handed to [rule.match], and [num_matches] grew by one exactly when
    the match returned a non-empty list. *)
Lemma scan_sample_tolerated job rule n sample w a :
  let o := run h w a (scan_sample job rule n sample) in
  forallb tolerated (trace o) = true ->
  result o = inr (n + hits (trace o))
  ∧ samples (trace o) = [sample]
  ∧ 0 ≤ hits (trace o) ≤ 1.
Proof.
  cbv zeta. remember (run h w a (scan_sample job rule n sample)) as o eqn:Ho.
  unfold scan_sample in Ho. rewrite run_try_except, run_mbind, run_call in Ho.
  destruct (h _ (RuleMatch rule sample) w) as [w' [e|[|m ms]]];
    unfold and_then in Ho; cbn [result world self trace logs fst snd] in Ho.
  - unfold or_else in Ho; cbn [result world self trace logs] in Ho.
    destruct (is_sample_error e) eqn:He.
    + rewrite run_mbind in Ho.
      destruct (run_log_sample_error sample e w' a) as [l Hl]. rewrite Hl in Ho.
      unfold and_then, after in Ho; cbn [run result world self trace logs app] in Ho.
      subst o. intros _. simpl. split; [f_equal; lia|]. split; [done|lia].
    + subst o. cbn [trace forallb tolerated]. rewrite He. discriminate.
  - unfold or_else, after in Ho; cbn [run result world self trace logs app] in Ho.
    subst o. intros _. simpl. split; [f_equal; lia|]. split; [done|lia].
  - pose proof (run_matched_tolerated job sample (m :: ms) (n + 1) w' a) as Hin.
    cbv zeta in Hin.
    destruct (run h w' a (try_except _ _ _)) as [iw ia it il ir].
    unfold or_else, after in Ho; cbn [result world self trace logs app] in *.
    assert (forallb tolerated (Inter (RuleMatch rule sample) (inr (m :: ms)) :: it) = true ->
            ir = inr (n + 1) ∧ samples it = [] ∧ hits it = 0) as Hin'.
    { simpl. exact Hin. }
    destruct ir as [e|k].
    + destruct (is_sample_error e).
      * rewrite run_mbind in Ho.
        destruct (run_log_sample_error sample e iw ia) as [l Hl]. rewrite Hl in Ho.
        unfold and_then, after in Ho; cbn [run result world self trace logs] in Ho.
        rewrite app_nil_r in Ho. subst o; cbn [result trace].
        intros Htol. by destruct (Hin' Htol).
      * subst o; cbn [result trace]. intros Htol. by destruct (Hin' Htol).
    + subst o; cbn [result trace]. intros Htol. destruct (Hin' Htol) as (Hk & Hs & Hh).
      injection Hk as ->. simpl. rewrite Hs, Hh. split; [f_equal; lia|]. split; [done|lia].
Qed.

Lemma scan_samples_tolerated job rule files n w a :
  let o := run h w a (scan_samples job rule n files) in
  forallb tolerated (trace o) = true ->
  result o = inr (n + hits (trace o))
  ∧ samples (trace o) = files
  ∧ 0 ≤ hits (trace o) ≤ len files.
Proof.
  revert n w a; induction files as [|sample files IH]; intros n w a; cbv zeta.
  - simpl. intros _. split; [f_equal; lia|]. split; [done|]. unfold len; simpl; lia.
  - remember (run h w a (scan_samples job rule n (sample :: files))) as o eqn:Ho.
    cbn [scan_samples] in Ho. rewrite run_mbind in Ho.
    pose proof (scan_sample_tolerated job rule n sample w a) as H1. cbv zeta in H1.
    destruct (run h w a (scan_sample job rule n sample)) as [w1 a1 t1 l1 r1].
    unfold and_then in Ho; cbn [result world self trace logs] in *.
    destruct r1 as [e|n1].
    + subst o; cbn [result trace]. intros Htol. by destruct (H1 Htol).
    + pose proof (IH n1 w1 a1) as H2. cbv zeta in H2.
      destruct (run h w1 a1 (scan_samples job rule n1 files)) as [w2 a2 t2 l2 r2].
      unfold after in Ho; cbn [result world self trace logs] in *. subst o.
      cbn [result trace].
      intros Htol. apply forallb_tolerated_app in Htol as [Ht1 Ht2].
      destruct (H1 Ht1) as (Hn1 & Hs1 & Hh1). destruct (H2 Ht2) as (Hr2 & Hs2 & Hh2).
      injection Hn1 as ->. rewrite samples_app, hits_app, Hs1, Hs2, Hr2.
      split; [f_equal; lia|]. split; [done|].
      unfold len in *. rewrite length_cons. lia.
Qed.

End ScanLoop.

Lemma compile_yara_tolerated {W} (h : Handler W) job w a :
  let o := run h w a (compile_yara job) in
  forallb tolerated (trace o) = true ->
  (exists rule, result o = inr rule) ∧ samples (trace o) = [] ∧ hits (trace o) = 0.
Proof.
  cbv zeta. unfold compile_yara. simpl.
  destruct (cache_get (job_key job) (yara_cache a)) as [rule|]; simpl; [eauto|].
  destruct (h _ (GetYaraByJob job) w) as [w1 [e|src]]; simpl; [discriminate|].
  destruct (h _ (YaraCompile src) w1) as [w2 [e|rule]]; simpl; [|eauto].
  destruct (is_syntax_error e); simpl; discriminate.
Qed.

Lemma last_app_one {A} (l : list A) (x : A) : last (l ++ [x]) = Some x.
Proof. induction l as [|y [|z l] IH]; done. Qed.

(** A sample on which [rule.match] raises one of the two tolerated errors:
    the iteration logs, returns, and leaves [num_matches] as it was. *)
Lemma scan_sample_skips {W} (h : Handler W) job rule k sample w0 a0 w1 e :
  h _ (RuleMatch rule sample) w0 = (w1, inl e) ->
  is_sample_error e = true ->
  exists l,
    run h w0 a0 (scan_sample job rule k sample)
    = MkOutcome w1 a0 [Inter (RuleMatch rule sample) (inl e)] [l] (inr k).
Proof.
  intros Hmatch He.
  unfold scan_sample. rewrite run_try_except, run_mbind, run_call, Hmatch.
  unfold and_then, or_else; cbn [result world self trace logs fst snd].
  rewrite He, run_mbind.
  destruct (run_log_sample_error h sample e w1 a0) as [l ->].
  unfold and_then, after; cbn [run result world self trace logs app]. eauto.
Qed.

(** A whole batch under tolerated failures. *)
Lemma execute_yara_tolerated {W} (h : Handler W) job files w a :
  let o := run h w a (execute_yara job files) in
  forallb tolerated (trace o) = true ->
  result o = inr tt
  ∧ samples (trace o) = files
  ∧ last (trace o)
    = Some (Inter (JobUpdateWork job (len files) (hits (trace o))) (inr tt))
  ∧ 0 ≤ hits (trace o) ≤ len files.
Proof.
  cbv zeta. remember (run h w a (execute_yara job files)) as o eqn:Ho.
  unfold execute_yara in Ho. rewrite run_mbind in Ho.
  pose proof (compile_yara_tolerated h job w a) as Hc. cbv zeta in Hc.
  destruct (run h w a (compile_yara job)) as [w1 a1 t1 l1 r1].
  unfold and_then in Ho; cbn [result world self trace logs] in *.
  destruct r1 as [e|rule].
  { subst o; cbn [trace]. intros Htol. by destruct (Hc Htol) as ((? & ?) & _). }
  rewrite run_mbind, run_call in Ho.
  destruct (h _ (JobStartWork job (len files)) w1) as [w2 [e|[]]];
    unfold and_then in Ho; cbn [result world self trace logs fst snd] in Ho.
  { subst o. unfold after; cbn [trace]. intros Htol.
    apply forallb_tolerated_app in Htol as [_ Htol]. discriminate Htol. }
  rewrite run_mbind in Ho.
  pose proof (scan_samples_tolerated h job rule files 0 w2 a1) as Hs. cbv zeta in Hs.
  destruct (run h w2 a1 (scan_samples job rule 0 files)) as [w3 a3 t3 l3 r3].
  unfold and_then in Ho; cbn [result world self trace logs] in *.
  destruct r3 as [e|m].
  { subst o. unfold after; cbn [trace]. intros Htol.
    apply forallb_tolerated_app in Htol as [_ Htol].
    apply (forallb_tolerated_app [_]) in Htol as [_ Htol].
    by destruct (Hs Htol). }
  rewrite run_call in Ho.
  destruct (h _ (JobUpdateWork job (len files) m) w3) as [w4 [e|[]]];
    subst o; unfold after; cbn [result world self trace logs fst snd];
    intros Htol;
    apply forallb_tolerated_app in Htol as [Ht1 Htol];
    apply (forallb_tolerated_app [_]) in Htol as [_ Htol];
    apply forallb_tolerated_app in Htol as [Ht3 Htol]; [discriminate Htol|].
  destruct (Hc Ht1) as (_ & Hs1 & Hh1). destruct (Hs Ht3) as (Hm & Hs3 & Hh3).
  injection Hm as ->.
  assert (hits (t1 ++ [Inter (JobStartWork job (len files)) (inr ())] ++ t3
                ++ [Inter (JobUpdateWork job (len files) (0 + hits t3)) (inr ())])
          = 0 + hits t3) as Hhits.
  { rewrite !hits_app, Hh1. simpl. lia. }
  rewrite Hhits. split; [done|]. split.
  { rewrite !samples_app, Hs1, Hs3. simpl. by rewrite app_nil_r. }
  split; [|lia].
  rewrite !app_assoc. apply last_app_one.
Qed.

(** C4. Per-file error isolation in the scan step.  A sample on which
    [rule.match] raises [yara.Error] or [FileNotFoundError] is skipped
    without raising and leaves the match count as it is.  For a whole
    batch: if no other failure occurs, [__execute_yara] returns normally,
    every file of the batch is handed to [rule.match] in order (also after
    a failing one), and the last call is [job_update_work] with the full
    batch length [n] and the number [m] of files on which the match was
    non-empty; so [0 ≤ m ≤ n], and the store's update keeps
    [num_matches ≤ files_processed]. *)
Theorem execute_yara_isolates_sample_errors {W} (h : Handler W) job files w a :
  let o := run h w a (execute_yara job files) in
  let n := len files in
  (forall rule k sample w0 a0 w1 e,
     h _ (RuleMatch rule sample) w0 = (w1, inl e) ->
     is_sample_error e = true ->
     exists l,
       run h w0 a0 (scan_sample job rule k sample)
       = MkOutcome w1 a0 [Inter (RuleMatch rule sample) (inl e)] [l] (inr k))
  ∧ (forallb tolerated (trace o) = true ->
     result o = inr tt
     ∧ samples (trace o) = files
     ∧ last (trace o)
       = Some (Inter (JobUpdateWork job n (hits (trace o))) (inr tt))
     ∧ 0 ≤ hits (trace o) ≤ n
     ∧ forall j,
         num_matches j ≤ files_processed j ->
         let j' := Model.job_update_work n (hits (trace o)) j in
         num_matches j' ≤ files_processed j').
Proof.
  cbv zeta. split.
  - intros rule k sample w0 a0 w1 e. apply scan_sample_skips.
  - intros Htol.
    destruct (execute_yara_tolerated h job files w a Htol) as (Hres & Hs & Hlast & Hh).
    repeat (split; [done|]).
    intros j Hj. unfold Model.job_update_work; cbn [num_matches files_processed]. lia.
Qed.

(** A batch of five files of which one makes YARA fail and one is gone: the
    scan returns, and the store is told of five processed files and two
    matches. *)
Lemma execute_yara_isolates_sample_errors_witness :
  let files := ["a"; "y1"; "m1"; "x1"; "m2"] in
  let o := run Model.handle
             (Scenario.world_with (Scenario.mk_job "processing" 5 0 0) 1 "it" files)
             Scenario.agent0 (execute_yara Scenario.job_id0 files) in
  result o = inr tt
  ∧ last (trace o) = Some (Inter (JobUpdateWork Scenario.job_id0 5 2) (inr tt)).
Proof.
  intros files o.
  destruct (execute_yara_isolates_sample_errors Model.handle Scenario.job_id0 files
              (Scenario.world_with (Scenario.mk_job "processing" 5 0 0) 1 "it" files)
              Scenario.agent0) as [_ Hbatch].
  destruct Hbatch as (Hres & _ & Hlast & _); [vm_compute; reflexivity|].
  split; [exact Hres|]. unfold o. rewrite Hlast. vm_compute. reflexivity.
Defined.

(** ** The search handler *)

(** Symbolic execution of a run kept in hypothesis [Ho]: case analysis on
    the next answer of the environment, or on the next test of the code. *)
Ltac run_step h Ho :=
  simpl in Ho;
  match type of Ho with
  | context [h ?X ?ev ?w] =>
      let w' := fresh "w" in
      let e := fresh "e" in
      let x := fresh "x" in
      destruct (h X ev w) as [w' [e|x]] eqn:?
  | context [decide ?P] => destruct (decide P)
  | context [match ?x with UrsaError _ => _ | UrsaOk _ => _ end] => destruct x
  | context [match ?x with Some _ => _ | None => _ end] => destruct x
  end;
  simpl in Ho.

(** The three store calls that end a search task. *)
Inductive SearchOp : Type :=
| OpUpdateJobFiles (job : JobId) (n : Z)
| OpStartJob (group : string) (job : JobId) (it : string)
| OpContinueSearch (group : string) (job : JobId).

Definition search_op (i : Interaction) : option SearchOp :=
  match i with
  | Inter ev _ =>
      match ev with
      | UpdateJobFiles job n => Some (OpUpdateJobFiles job n)
      | AgentStartJob group job it => Some (OpStartJob group job it)
      | AgentContinueSearch group job => Some (OpContinueSearch group job)
      | _ => None
      end
  end.

Definition search_ops (t : list Interaction) : list SearchOp := omap search_op t.

(** The successful answers of the backend to [query] found in a trace. *)
Definition query_answer (i : Interaction) : option QueryResult :=
  match i with
  | Inter ev r =>
      match ev in Event X return Exn + X -> option QueryResult with
      | UrsaQuery _ _ _ => fun r => match r with inr (UrsaOk res) => Some res | _ => None end
      | _ => fun _ => None
      end r
  end.

Definition query_answers (t : list Interaction) : list QueryResult := omap query_answer t.

(** C5. In every environment the store calls of one search task come in
    the order [update_job_files], [agent_start_job], [agent_continue_search]:
    what the task issued of them is a prefix of that sequence, so the YARA
    task is never enqueued before [total_files] was incremented, nor the
    SEARCH task before the YARA task.  The count and the iterator are those
    the backend answered.  A task that returns normally issued either none
    of them (cancelled job, no dataset left) or all three. *)
Theorem search_task_store_order {W} (h : Handler W) w a job :
  let o := run h w a (search_task job) in
  exists res,
    search_ops (trace o)
      `prefix_of` [OpUpdateJobFiles job (file_count res);
                   OpStartJob (group_id a) job (iterator res);
                   OpContinueSearch (group_id a) job]
    ∧ (search_ops (trace o) <> [] -> query_answers (trace o) = [res])
    ∧ (result o = inr tt ->
       search_ops (trace o) = []
       ∨ search_ops (trace o)
         = [OpUpdateJobFiles job (file_count res);
            OpStartJob (group_id a) job (iterator res);
            OpContinueSearch (group_id a) job]).
Proof.
  cbv zeta. remember (run h w a (search_task job)) as o eqn:Ho.
  unfold search_task in Ho.
  repeat run_step h Ho; subst o; simpl;
    try (exists (MkQueryResult 0 ""); split; [by eexists|split; [done|intros; by left]]);
    try (eexists; split; [by eexists|split; [reflexivity|try discriminate; intros; by right]]).
Qed.

(** A new job over one dataset of three files: the three calls, in order,
    with the count and the iterator of the backend's answer. *)
Lemma search_task_store_order_witness :
  search_ops
    (trace (run Model.handle (Scenario.new_job_world [("ds0", ["a"; "b"; "c"])])
              Scenario.agent0 (search_task Scenario.job_id0)))
  = [OpUpdateJobFiles Scenario.job_id0 3;
     OpStartJob "default" Scenario.job_id0 "iterator:ds0";
     OpContinueSearch "default" Scenario.job_id0].
Proof.
  destruct (search_task_store_order Model.handle
              (Scenario.new_job_world [("ds0", ["a"; "b"; "c"])])
              Scenario.agent0 Scenario.job_id0) as (res & _ & Hq & Hfull).
  assert (res = MkQueryResult 3 "iterator:ds0") as ->.
  { assert (query_answers
              (trace (run Model.handle (Scenario.new_job_world [("ds0", ["a"; "b"; "c"])])
                        Scenario.agent0 (search_task Scenario.job_id0))) = [res]) as H
      by (apply Hq; vm_compute; discriminate).
    vm_compute in H. by injection H. }
  destruct Hfull as [H|H]; [vm_compute; reflexivity| |exact H].
  vm_compute in H. discriminate H.
Defined.

(** The logs of a search task that queries the backend. *)
Definition search_logs (res : QueryResult) : list LogRecord :=
  [MkLog INFO "Parsing..." [];
   MkLog INFO "Get next dataset to query..." [];
   MkLog INFO "Querying backend..." [];
   MkLog INFO "Iterator {iterator} contains {file_count} files"
     [LStr (iterator res); LInt (file_count res)]].

(** A search task on a job that is neither cancelled nor new, in an
    environment that has a dataset left and answers every call. *)
Lemma run_search_task_query {W} (h : Handler W) a job j ds rules parsed res
    w w1 w2 w3 w4 w5 w6 w7 w8 :
  h _ (GetJob job) w = (w1, inr j) ->
  status j <> "cancelled" ->
  status j <> "new" ->
  h _ (GetNextSearchDataset (group_id a) job) w1 = (w2, inr (Some ds)) ->
  h _ (ParseYara (raw_yara j)) w2 = (w3, inr rules) ->
  h _ (CombineRules rules) w3 = (w4, inr parsed) ->
  h _ (UrsaQuery (query parsed) (taint j) ds) w4 = (w5, inr (UrsaOk res)) ->
  h _ (UpdateJobFiles job (file_count res)) w5 = (w6, inr tt) ->
  h _ (AgentStartJob (group_id a) job (iterator res)) w6 = (w7, inr tt) ->
  h _ (AgentContinueSearch (group_id a) job) w7 = (w8, inr tt) ->
  run h w a (search_task job)
  = MkOutcome w8 a
      [Inter (GetJob job) (inr j);
       Inter (GetNextSearchDataset (group_id a) job) (inr (Some ds));
       Inter (ParseYara (raw_yara j)) (inr rules);
       Inter (CombineRules rules) (inr parsed);
       Inter (UrsaQuery (query parsed) (taint j) ds) (inr (UrsaOk res));
       Inter (UpdateJobFiles job (file_count res)) (inr tt);
       Inter (AgentStartJob (group_id a) job (iterator res)) (inr tt);
       Inter (AgentContinueSearch (group_id a) job) (inr tt)]
      (search_logs res) (inr tt).
Proof.
  intros Hget Hc Hn Hnext Hparse Hcombine Hquery Hupdate Hstart Hcontinue.
  unfold search_task. simpl. rewrite Hget. simpl.
  destruct (decide (status j = "cancelled")); [done|].
  destruct (decide (status j = "new")); [done|]. simpl.
  rewrite Hnext. simpl. rewrite Hparse. simpl. rewrite Hcombine. simpl.
  rewrite Hquery. simpl. rewrite Hupdate. simpl. rewrite Hstart. simpl.
  rewrite Hcontinue. reflexivity.
Qed.

(** C10. The search handler returns early on [cancelled] only.  For a job
    whose status is [failed] or [done] a delivered SEARCH task claims the
    next dataset, queries the backend, adds the count to [total_files] and
    enqueues a YARA task and a SEARCH task; the outcome depends on the
    snapshot through [raw_yara] and [taint] alone, so it is the outcome the
    same task has on a [processing] job. *)
Theorem search_task_ignores_failed_and_done {W} (h : Handler W) a job j ds rules
    parsed res w w1 w2 w3 w4 w5 w6 w7 w8 :
  h _ (GetJob job) w = (w1, inr j) ->
  status j = "failed" ∨ status j = "done" ->
  h _ (GetNextSearchDataset (group_id a) job) w1 = (w2, inr (Some ds)) ->
  h _ (ParseYara (raw_yara j)) w2 = (w3, inr rules) ->
  h _ (CombineRules rules) w3 = (w4, inr parsed) ->
  h _ (UrsaQuery (query parsed) (taint j) ds) w4 = (w5, inr (UrsaOk res)) ->
  h _ (UpdateJobFiles job (file_count res)) w5 = (w6, inr tt) ->
  h _ (AgentStartJob (group_id a) job (iterator res)) w6 = (w7, inr tt) ->
  h _ (AgentContinueSearch (group_id a) job) w7 = (w8, inr tt) ->
  let rest :=
    [Inter (GetNextSearchDataset (group_id a) job) (inr (Some ds));
     Inter (ParseYara (raw_yara j)) (inr rules);
     Inter (CombineRules rules) (inr parsed);
     Inter (UrsaQuery (query parsed) (taint j) ds) (inr (UrsaOk res));
     Inter (UpdateJobFiles job (file_count res)) (inr tt);
     Inter (AgentStartJob (group_id a) job (iterator res)) (inr tt);
     Inter (AgentContinueSearch (group_id a) job) (inr tt)] in
  run h w a (search_task job)
  = MkOutcome w8 a (Inter (GetJob job) (inr j) :: rest) (search_logs res) (inr tt)
  ∧ forall w' j',
      h _ (GetJob job) w' = (w1, inr j') ->
      status j' = "processing" ->
      raw_yara j' = raw_yara j ->
      taint j' = taint j ->
      run h w' a (search_task job)
      = MkOutcome w8 a (Inter (GetJob job) (inr j') :: rest) (search_logs res) (inr tt).
Proof.
  intros Hget Hst Hnext Hparse Hcombine Hquery Hupdate Hstart Hcontinue rest.
  split.
  - apply (run_search_task_query h a job j ds rules parsed res w w1 w2 w3 w4 w5 w6 w7 w8);
      try done; destruct Hst as [-> | ->]; discriminate.
  - intros w' j' Hget' Hst' Hyara Htaint. subst rest. rewrite <- Hyara, <- Htaint in *.
    apply (run_search_task_query h a job j' ds rules parsed res w' w1 w2 w3 w4 w5 w6 w7 w8);
      try done; rewrite Hst'; discriminate.
Qed.

(** A SEARCH task delivered for a job that is already [done]: the dataset is
    claimed and queried, and the store's [total_files] grows by its three
    files. *)
Lemma search_task_ignores_failed_and_done_witness :
  let o := run Model.handle (Scenario.pending_dataset_world "done") Scenario.agent0
             (search_task Scenario.job_id0) in
  result o = inr tt
  ∧ search_ops (trace o)
    = [OpUpdateJobFiles Scenario.job_id0 3;
       OpStartJob "default" Scenario.job_id0 "iterator:ds0";
       OpContinueSearch "default" Scenario.job_id0]
  ∧ total_files <$> Scenario.job_snapshot (world o) = Some 3.
Proof.
  edestruct (search_task_ignores_failed_and_done Model.handle Scenario.agent0
               Scenario.job_id0) with (w := Scenario.pending_dataset_world "done")
    as [Hrun _].
  1: vm_compute; reflexivity.
  1: right; reflexivity.
  1-7: vm_compute; reflexivity.
  cbv zeta. rewrite Hrun. repeat split; vm_compute; reflexivity.
Defined.

(** ** The batch sizes of a single agent *)

(** The snapshot a lone agent reads after [taken] files of [total] were
    processed: every earlier batch is complete, nothing is in progress. *)
Definition snapshot_after (total taken : Z) : Job :=
  MkJob "processing" "" None total taken 0 0.

(** The first [n] batch sizes when every pop returns exactly the batch asked
    for. *)
Fixpoint batch_trace (n : nat) (total taken : Z) : list Z :=
  match n with
  | O => []
  | S n' =>
      let b := batch_size (snapshot_after total taken) in
      b :: batch_trace n' total (taken + b)
  end.

(** The seventh batch on 1000 files is computed from [taken = 320] and
    [remaining = 680]: [min(500, 320, 680 // 4) = 170], not 320. *)
Lemma batch_trace_1000_counterexample :
  batch_trace 8 1000 0 <> [10; 10; 20; 40; 80; 160; 320; 360].
Proof. vm_compute. discriminate. Qed.

(** C6 (amended). On a job of 1000 files handled by a single agent, each
    pop returning exactly the batch asked for and completing before the
    next size is computed, the successive batch sizes are 10, 10, 20, 40,
    80, 160, 170, 127: from the seventh batch on, a quarter of what remains
    is the smaller bound.  No batch exceeds 500 and every batch is at least
    10, whatever the job.  The same sizes are the ones the agent asks for
    when its main loop runs the job to the end against the model store and
    backend. *)
Theorem batch_trace_1000 :
  batch_trace 8 1000 0 = [10; 10; 20; 40; 80; 160; 170; 127]
  ∧ (forall n total taken,
       Forall (fun b => 10 ≤ b ≤ 500) (batch_trace n total taken))
  ∧ Scenario.pop_sizes
      (trace (run Model.handle
                (Scenario.new_job_world [("ds0", replicate 1000 "sample")])
                Scenario.agent0 (main_loop [] 22)))
    = [10; 10; 20; 40; 80; 160; 170; 127; 95; 72; 54; 40; 30; 23; 17; 13;
       10; 10; 10; 10].
Proof.
  split; [vm_compute; reflexivity|]. split.
  - induction n as [|n IH]; intros total taken; simpl.
    + constructor.
    + constructor; [apply batch_size_bounds|apply IH].
  - vm_compute. reflexivity.
Qed.

(** ** Boundary: an empty dataset *)

(** A search task that returned normally after the backend answered its
    query made the three store calls. *)
Lemma search_task_after_query {W} (h : Handler W) w a job :
  let o := run h w a (search_task job) in
  forall res,
    query_answers (trace o) = [res] ->
    result o = inr tt ->
    search_ops (trace o)
    = [OpUpdateJobFiles job (file_count res);
       OpStartJob (group_id a) job (iterator res);
       OpContinueSearch (group_id a) job].
Proof.
  cbv zeta. remember (run h w a (search_task job)) as o eqn:Ho.
  unfold search_task in Ho.
  repeat run_step h Ho; subst o; simpl; intros res Hq Hr;
    try discriminate; injection Hq as <-; reflexivity.
Qed.

(** C7. Empty dataset.  When the backend answers the query with
    [file_count = 0], the search handler still adds the count, enqueues the
    YARA task of the (empty) iterator and re-enqueues the SEARCH task.  The
    scan handler then pops an empty list and skips [__execute_yara]: with
    the job still [processing] and [files_processed == total_files] at the
    second read, its whole run is [get_job], [pop], [get_job],
    [agent_finish_job].  Against the model store and backend the main loop
    brings a new job over one empty dataset to [done] without handing a
    single file to YARA. *)
Theorem empty_dataset_completes :
  (forall W (h : Handler W) w a job res,
     let o := run h w a (search_task job) in
     query_answers (trace o) = [res] ->
     file_count res = 0 ->
     result o = inr tt ->
     search_ops (trace o)
     = [OpUpdateJobFiles job 0;
        OpStartJob (group_id a) job (iterator res);
        OpContinueSearch (group_id a) job])
  ∧ (forall W (h : Handler W) a job it j j2 w w1 w2 w3 w4,
       h _ (GetJob job) w = (w1, inr j) ->
       status j ∉ final_statuses ->
       h _ (UrsaPop it (batch_size j)) w1 = (w2, inr (MkPopResult [] true)) ->
       h _ (GetJob job) w2 = (w3, inr j2) ->
       status j2 = "processing" ->
       files_processed j2 = total_files j2 ->
       h _ (AgentFinishJob job) w3 = (w4, inr tt) ->
       run h w a (yara_task job it)
       = MkOutcome w4 a
           [Inter (GetJob job) (inr j);
            Inter (UrsaPop it (batch_size j)) (inr (MkPopResult [] true));
            Inter (GetJob job) (inr j2);
            Inter (AgentFinishJob job) (inr tt)]
           [] (inr tt))
  ∧ (let o := run Model.handle (Scenario.new_job_world [("ds0", [])])
                Scenario.agent0 (main_loop [] 3) in
     result o = inr tt
     ∧ status <$> Scenario.job_snapshot (world o) = Some "done"
     ∧ Scenario.pop_sizes (trace o) = [10]
     ∧ Scenario.scans (trace o) = 0%nat
     ∧ samples (trace o) = []).
Proof.
  split; [|split].
  - intros W h w a job res o Hq Hfc Hres.
    rewrite <- Hfc. by apply search_task_after_query.
  - intros W h a job it j j2 w w1 w2 w3 w4 Hget Hst Hpop Hget2 Hst2 Hdone Hfinish.
    unfold yara_task. simpl. rewrite Hget. simpl.
    destruct (decide (status j ∈ final_statuses)); [done|]. simpl.
    rewrite Hpop. simpl. rewrite Hget2. simpl.
    rewrite (bool_decide_eq_true_2 _ Hst2), (bool_decide_eq_true_2 _ Hdone). simpl.
    rewrite Hfinish. reflexivity.
  - vm_compute. repeat split; reflexivity.
Qed.

(** The two tasks of a new job over one empty dataset, run one after the
    other against the model. *)
Lemma empty_dataset_completes_witness :
  let w0 := Scenario.new_job_world [("ds0", [])] in
  let o1 := run Model.handle w0 Scenario.agent0 (search_task Scenario.job_id0) in
  let o2 := run Model.handle (world o1) Scenario.agent0
              (yara_task Scenario.job_id0 "iterator:ds0") in
  search_ops (trace o1)
  = [OpUpdateJobFiles Scenario.job_id0 0;
     OpStartJob "default" Scenario.job_id0 "iterator:ds0";
     OpContinueSearch "default" Scenario.job_id0]
  ∧ result o2 = inr tt
  ∧ length (trace o2) = 4%nat
  ∧ status <$> Scenario.job_snapshot (world o2) = Some "done".
Proof.
  intros w0 o1 o2.
  destruct empty_dataset_completes as (Hsearch & Hyara & _). split.
  - apply (Hsearch _ Model.handle w0 Scenario.agent0 Scenario.job_id0
             (MkQueryResult 0 "iterator:ds0")); vm_compute; reflexivity.
  - unfold o2. erewrite Hyara; [|vm_compute; reflexivity| |vm_compute; reflexivity ..].
    + repeat split; vm_compute; reflexivity.
    + by_decide.
Defined.

(** ** Boundary: a job smaller than the minimal batch *)

(** For five files the handler asks for ten. *)
Lemma small_job_batch_counterexample :
  let j := Scenario.mk_job "processing" 5 0 0 in
  0 < total_files j < MIN_BATCH_SIZE
  ∧ files_processed j + files_in_progress j = 0
  ∧ batch_size j <> total_files j.
Proof. vm_compute. repeat split; discriminate. Qed.

(** The scan handler when the pop drains the iterator and the scan meets
    tolerated failures only. *)
Lemma run_yara_task_last_batch {W} (h : Handler W) a job it j fs j2 w w1 w2 w3 w4 :
  h _ (GetJob job) w = (w1, inr j) ->
  status j ∉ final_statuses ->
  h _ (UrsaPop it (batch_size j)) w1 = (w2, inr (MkPopResult fs true)) ->
  fs <> [] ->
  let scan := run h w2 a (execute_yara job fs) in
  result scan = inr tt ->
  h _ (GetJob job) (world scan) = (w3, inr j2) ->
  status j2 = "processing" ->
  files_processed j2 = total_files j2 ->
  h _ (AgentFinishJob job) w3 = (w4, inr tt) ->
  run h w a (yara_task job it)
  = MkOutcome w4 (self scan)
      ([Inter (GetJob job) (inr j);
        Inter (UrsaPop it (batch_size j)) (inr (MkPopResult fs true))]
       ++ trace scan
       ++ [Inter (GetJob job) (inr j2); Inter (AgentFinishJob job) (inr tt)])
      (logs scan) (inr tt).
Proof.
  intros Hget Hst Hpop Hfs scan Hscan Hget2 Hst2 Hdone Hfinish.
  unfold yara_task. rewrite run_mbind, (run_call_ok h _ _ _ _ _ Hget).
  unfold and_then at 1; cbn [result world self trace logs].
  destruct (decide (status j ∈ final_statuses)); [done|].
  rewrite run_mbind, (run_call_ok h _ _ _ _ _ Hpop).
  unfold and_then at 1; cbn [result world self trace logs files iterator_empty].
  rewrite run_mbind. cbn [run]. unfold and_then at 1; cbn [result world self trace logs].
  rewrite run_mbind. destruct fs as [|f fs]; [done|].
  fold scan. unfold and_then at 1. rewrite Hscan.
  rewrite run_mbind, (run_call_ok h _ _ _ _ _ Hget2).
  unfold and_then at 1; cbn [result world self trace logs].
  rewrite (bool_decide_eq_true_2 _ Hst2), (bool_decide_eq_true_2 _ Hdone).
  cbn [andb]. rewrite (run_call_ok h _ _ _ _ _ Hfinish).
  unfold after; cbn [result world self trace logs].
  rewrite !app_nil_r. reflexivity.
Qed.

(** C8 (amended). For a job with [0 < total_files < MIN_BATCH] and no file
    taken yet, the computed batch size is [MIN_BATCH = 10], more than the
    job holds.  When the pop for those ten returns all [total_files] files
    and leaves the iterator empty, the handler does not re-enqueue the
    task, scans every file in that single batch, reports [total_files]
    processed files, and, the job being [processing] with
    [files_processed == total_files] at the second read, calls
    [agent_finish_job]. *)
Theorem small_job_single_batch {W} (h : Handler W) a job it j fs j2 w w1 w2 w3 w4 :
  0 < total_files j < MIN_BATCH_SIZE ->
  files_processed j + files_in_progress j = 0 ->
  h _ (GetJob job) w = (w1, inr j) ->
  status j ∉ final_statuses ->
  h _ (UrsaPop it 10) w1 = (w2, inr (MkPopResult fs true)) ->
  len fs = total_files j ->
  let scan := run h w2 a (execute_yara job fs) in
  forallb tolerated (trace scan) = true ->
  h _ (GetJob job) (world scan) = (w3, inr j2) ->
  status j2 = "processing" ->
  files_processed j2 = total_files j2 ->
  h _ (AgentFinishJob job) w3 = (w4, inr tt) ->
  let o := run h w a (yara_task job it) in
  batch_size j = 10
  ∧ result o = inr tt
  ∧ trace o
    = [Inter (GetJob job) (inr j);
       Inter (UrsaPop it 10) (inr (MkPopResult fs true))]
      ++ trace scan
      ++ [Inter (GetJob job) (inr j2); Inter (AgentFinishJob job) (inr tt)]
  ∧ samples (trace scan) = fs
  ∧ last (trace scan)
    = Some (Inter (JobUpdateWork job (total_files j) (hits (trace scan))) (inr tt)).
Proof.
  intros Htotal Htaken Hget Hst Hpop Hlen scan Htol Hget2 Hst2 Hdone Hfinish o.
  assert (batch_size j = 10) as Hbatch.
  { unfold batch_size, MIN_BATCH_SIZE, MAX_BATCH_SIZE in *. rewrite Htaken. lia. }
  destruct (execute_yara_tolerated h job fs w2 a Htol) as (Hres & Hs & Hlast & _).
  assert (fs <> []) as Hfs.
  { intros ->. unfold len in Hlen; simpl in Hlen. lia. }
  rewrite <- Hbatch in Hpop.
  pose proof (run_yara_task_last_batch h a job it j fs j2 w w1 w2 w3 w4
                Hget Hst Hpop Hfs Hres Hget2 Hst2 Hdone Hfinish) as Hrun.
  subst o. rewrite Hrun. cbn [result trace]. rewrite Hbatch.
  split; [done|]. split; [done|]. split; [done|]. split; [done|].
  rewrite <- Hlen. exact Hlast.
Qed.

(** A job of five files, one of which makes YARA fail: one pop of ten, one
    scan of five, and the model store holds the job as done. *)
Lemma small_job_single_batch_witness :
  let fs := ["a"; "m1"; "y1"; "b"; "m2"] in
  let o := run Model.handle
             (Scenario.world_with (Scenario.mk_job "processing" 5 0 0) 1 "it" fs)
             Scenario.agent0 (yara_task Scenario.job_id0 "it") in
  result o = inr tt
  ∧ Scenario.pop_sizes (trace o) = [10]
  ∧ Scenario.scans (trace o) = 1%nat
  ∧ Scenario.job_snapshot (world o)
    = Some (MkJob "done" Scenario.yara0 None 5 5 0 2).
Proof.
  intros fs o.
  edestruct (small_job_single_batch Model.handle Scenario.agent0 Scenario.job_id0 "it"
               (Scenario.mk_job "processing" 5 0 0) fs)
    with (w := Scenario.world_with (Scenario.mk_job "processing" 5 0 0) 1 "it" fs)
    as (_ & Hres & _).
  1: vm_compute; split; reflexivity.
  1: reflexivity.
  1: vm_compute; reflexivity.
  1: by_decide.
  1: vm_compute; reflexivity.
  1: reflexivity.
  1: vm_compute; reflexivity.
  1: vm_compute; reflexivity.
  1: reflexivity.
  1: reflexivity.
  1: vm_compute; reflexivity.
  split; [exact Hres|]. repeat split; vm_compute; reflexivity.
Defined.

(** * Further properties of the agent *)

(** ** Which collaborators a method can call

    [calls_only P p]: every call the program [p] can make, whatever the
    environment answers, satisfies [P].  The property follows the structure
    of the program; [calls_only_run] transfers it to the trace of any run. *)

Definition EventPred : Type := forall X, Event X -> bool.

Fixpoint calls_only (P : EventPred) {A : Type} (p : Prog A) : Prop :=
  match p with
  | Ret _ => True
  | Raise _ => True
  | Log _ k => calls_only P k
  | GetSelf k => forall a, calls_only P (k a)
  | PutSelf _ k => calls_only P k
  | Call ev k => P _ ev = true ∧ forall r, calls_only P (k r)
  end.

Definition satisfies (P : EventPred) (i : Interaction) : bool :=
  match i with Inter ev _ => P _ ev end.

(** The calls of a trace selected by [f], with what [f] keeps of them. *)
Definition calls {B : Type} (f : forall X, Event X -> option B) (t : list Interaction)
    : list B :=
  omap (fun i => match i with Inter ev _ => f _ ev end) t.

Section CallsOnly.
Context (P : EventPred).

Lemma calls_only_bind {A B} (p : Prog A) (f : A -> Prog B) :
  calls_only P p -> (forall x, calls_only P (f x)) -> calls_only P (bind p f).
Proof.
  intros Hp Hf. induction p as [x|e|l k IH|k IH|a' k IH|X ev k IH]; simpl in *; auto.
  destruct Hp as [Hev Hk]. split; [done|]. intros r. apply IH, Hk.
Qed.

Lemma calls_only_mbind {A B} (p : Prog A) (f : A -> Prog B) :
  calls_only P p -> (forall x, calls_only P (f x)) -> calls_only P (p ≫= f).
Proof. apply calls_only_bind. Qed.

Lemma calls_only_try_except {A} (p : Prog A) c hd :
  calls_only P p -> (forall e, calls_only P (hd e)) -> calls_only P (try_except p c hd).
Proof.
  intros Hp Hh. induction p as [x|e|l k IH|k IH|a' k IH|X ev k IH]; simpl in *; auto.
  - destruct (c e); [apply Hh|done].
  - destruct Hp as [Hev Hk]. split; [done|]. intros r. apply IH, Hk.
Qed.

Lemma calls_only_call {X} (ev : Event X) : P _ ev = true -> calls_only P (call ev).
Proof. intros Hev. split; [done|]. by intros [e|x]. Qed.

Lemma calls_only_logging lvl msg args : calls_only P (logging lvl msg args).
Proof. done. Qed.

Lemma calls_only_weaken (Q : EventPred) {A} (p : Prog A) :
  (forall X (ev : Event X), P _ ev = true -> Q _ ev = true) ->
  calls_only P p -> calls_only Q p.
Proof.
  intros HPQ. induction p as [x|e|l k IH|k IH|a' k IH|X ev k IH]; simpl; auto.
  intros [Hev Hk]. split; [by apply HPQ|]. intros r. apply IH, Hk.
Qed.

Lemma calls_only_run {W} (h : Handler W) {A} (p : Prog A) w a :
  calls_only P p -> forallb (satisfies P) (trace (run h w a p)) = true.
Proof.
  revert w a. induction p as [x|e|l k IH|k IH|a' k IH|X ev k IH]; intros w a Hp;
    simpl in *; auto.
  destruct Hp as [Hev Hk]. destruct (h X ev w) as [w' r]. simpl.
  rewrite Hev. simpl. apply IH, Hk.
Qed.

(** A call that [P] excludes does not occur in a trace of [P]-calls. *)
Lemma calls_excluded {B} (f : forall X, Event X -> option B) t :
  (forall X (ev : Event X), P _ ev = true -> f _ ev = None) ->
  forallb (satisfies P) t = true -> calls f t = [].
Proof.
  intros Hf. induction t as [|[X ev r] t IH]; simpl; [done|].
  intros [Hev Ht]%andb_prop. unfold calls; simpl. rewrite (Hf _ _ Hev). by apply IH.
Qed.

End CallsOnly.

(** Steps of a [calls_only] proof, following the program text. *)
Ltac calls_only_step :=
  match goal with
  | |- calls_only _ (_ ≫= _) => apply calls_only_mbind
  | |- calls_only _ (bind _ _) => apply calls_only_bind
  | |- calls_only _ (try_except _ _ _) => apply calls_only_try_except
  | |- calls_only _ (call _) => apply calls_only_call; reflexivity
  | |- calls_only _ (logging _ _ _) => apply calls_only_logging
  | |- calls_only _ (Ret _) => exact I
  | |- calls_only _ (Raise _) => exact I
  | |- calls_only _ get_self => intros ?; exact I
  | |- calls_only _ (put_self _) => exact I
  | |- calls_only _ (modify_self _) => intros ?; exact I
  | |- calls_only _ (if ?b then _ else _) => destruct b
  | |- calls_only _ (match ?x with _ => _ end) => destruct x
  | |- forall _, _ => intros ?
  end.

(** The footprints of the agent's methods. *)
Definition is_compile_call : EventPred := fun X ev =>
  match ev with
  | GetYaraByJob _ | YaraCompile _ => true
  | _ => false
  end.

Definition is_metadata_call : EventPred := fun X ev =>
  match ev with
  | PluginRun _ _ _ | AddMatch _ _ => true
  | _ => false
  end.

(** One loop iteration of [__execute_yara]. *)
Definition is_sample_call : EventPred := fun X ev =>
  match ev with
  | RuleMatch _ _ => true
  | _ => is_metadata_call _ ev
  end.

Definition is_scan_call : EventPred := fun X ev =>
  match ev with
  | JobStartWork _ _ | JobUpdateWork _ _ _ => true
  | _ => is_compile_call _ ev || is_sample_call _ ev
  end.

Definition is_yara_task_call : EventPred := fun X ev =>
  match ev with
  | GetJob _ | UrsaPop _ _ | AgentStartJob _ _ _ | AgentFinishJob _ => true
  | _ => is_scan_call _ ev
  end.

Definition is_search_call : EventPred := fun X ev =>
  match ev with
  | GetJob _ | UrsaTopology | InitJobDatasets _ _ _ | GetNextSearchDataset _ _
  | ParseYara _ | CombineRules _ | UrsaQuery _ _ _
  | UpdateJobFiles _ _ | AgentStartJob _ _ _ | AgentContinueSearch _ _ => true
  | _ => false
  end.

Definition is_init_call : EventPred := fun X ev =>
  match ev with
  | GetPluginConfigVersion | GetPluginConfiguration _ | PluginInit _ _
  | RegisterActiveAgent _ _ _ _ => true
  | _ => false
  end.

Lemma compile_yara_calls job : calls_only is_compile_call (compile_yara job).
Proof. unfold compile_yara. repeat calls_only_step. Qed.

Lemma run_plugins_calls ps path md :
  calls_only is_metadata_call (run_plugins ps path md).
Proof.
  revert md; induction ps as [|p ps IH]; intros md; simpl; [done|].
  split; [done|]. intros [e|[md1 [e|x]]]; simpl; apply IH.
Qed.

Lemma update_metadata_calls job path ms :
  calls_only is_metadata_call (update_metadata job path ms).
Proof.
  unfold update_metadata. repeat calls_only_step. apply run_plugins_calls.
Qed.

Lemma log_sample_error_calls (P : EventPred) sample e :
  calls_only P (log_sample_error sample e).
Proof. unfold log_sample_error. by destruct (is_yara_error e). Qed.

(** What follows [num_matches += 1] in the loop body. *)
Lemma matched_calls job sample ms (k : Z) :
  calls_only is_metadata_call
    (try_except (update_metadata job sample ms;; Ret k) is_sample_error
       (fun e => log_sample_error sample e;; Ret k)).
Proof.
  apply calls_only_try_except.
  - apply calls_only_mbind; [apply update_metadata_calls|done].
  - intros e. apply calls_only_mbind; [apply log_sample_error_calls|done].
Qed.

Lemma scan_sample_calls job rule n sample :
  calls_only is_sample_call (scan_sample job rule n sample).
Proof.
  unfold scan_sample. apply calls_only_try_except.
  - apply calls_only_mbind; [by apply calls_only_call|].
    intros [|m ms]; [done|].
    apply (calls_only_weaken is_metadata_call); [by intros X []|].
    apply matched_calls.
  - intros e. apply calls_only_mbind; [apply log_sample_error_calls|done].
Qed.

Lemma scan_samples_calls job rule n files :
  calls_only is_sample_call (scan_samples job rule n files).
Proof.
  revert n; induction files as [|sample files IH]; intros n; [done|].
  cbn [scan_samples]. apply calls_only_mbind; [apply scan_sample_calls|].
  intros n'. apply IH.
Qed.

Lemma execute_yara_calls job files :
  calls_only is_scan_call (execute_yara job files).
Proof.
  unfold execute_yara. apply calls_only_mbind.
  { apply (calls_only_weaken is_compile_call); [by intros X []|].
    apply compile_yara_calls. }
  intros rule. apply calls_only_mbind; [by apply calls_only_call|]. intros _.
  apply calls_only_mbind; [|intros m; by apply calls_only_call].
  apply (calls_only_weaken is_sample_call); [by intros X []|].
  apply scan_samples_calls.
Qed.

Lemma yara_task_calls job it : calls_only is_yara_task_call (yara_task job it).
Proof.
  unfold yara_task. apply calls_only_mbind; [by apply calls_only_call|].
  intros j. destruct (decide _); [done|].
  apply calls_only_mbind; [by apply calls_only_call|]. intros pop.
  apply calls_only_mbind.
  { destruct (iterator_empty pop); [done|].
    apply calls_only_mbind; [by intros ?|]. intros a. by apply calls_only_call. }
  intros _. apply calls_only_mbind.
  { destruct (files pop); [done|].
    apply (calls_only_weaken is_scan_call); [by intros X []|].
    apply execute_yara_calls. }
  intros _. apply calls_only_mbind; [by apply calls_only_call|]. intros j2.
  destruct (_ && _); [by apply calls_only_call|done].
Qed.

Lemma search_task_calls job : calls_only is_search_call (search_task job).
Proof. unfold search_task. repeat calls_only_step. Qed.

Lemma load_plugin_classes_calls classes acc :
  calls_only is_init_call (load_plugin_classes classes acc).
Proof.
  revert acc; induction classes as [|cls classes IH]; intros acc; [done|].
  cbn [load_plugin_classes]. repeat calls_only_step; apply IH.
Qed.

Lemma initialize_agent_calls plugins : calls_only is_init_call (initialize_agent plugins).
Proof.
  unfold initialize_agent, load_plugins.
  repeat first [apply load_plugin_classes_calls | calls_only_step].
Qed.

(** ** Footprints *)

(** X1. [__execute_yara] talks to the YARA library, to the plugins and to
    the counters and match list of the job only: whatever the environment
    answers, it reads no job, pops no iterator, enqueues no task and neither
    finishes nor fails a job. *)
Theorem execute_yara_footprint {W} (h : Handler W) job files w a :
  forallb (satisfies is_scan_call) (trace (run h w a (execute_yara job files))) = true.
Proof. apply calls_only_run, execute_yara_calls. Qed.

(** X2. [__search_task] never compiles or runs a YARA rule, never pops an
    iterator and never finishes or fails the job itself: its calls are the
    job read, the backend's topology and query, the dataset bookkeeping, the
    rule parser and the three store calls that end it. *)
Theorem search_task_footprint {W} (h : Handler W) job w a :
  forallb (satisfies is_search_call) (trace (run h w a (search_task job))) = true.
Proof. apply calls_only_run, search_task_calls. Qed.

(** The job a call fails, if it is [fail_job]. *)
Definition failed_job X (ev : Event X) : option (JobId * string) :=
  match ev with FailJob job msg => Some (job, msg) | _ => None end.

(** The job a call finishes, if it is [agent_finish_job]. *)
Definition finished_job X (ev : Event X) : option JobId :=
  match ev with AgentFinishJob job => Some job | _ => None end.

(** X3. [__yara_task] never fails a job, never queries the backend and
    never touches the datasets of a job: apart from the calls of the scan it
    only reads the job, pops the iterator, re-enqueues the task and finishes
    the job. *)
Theorem yara_task_footprint {W} (h : Handler W) job it w a :
  let o := run h w a (yara_task job it) in
  forallb (satisfies is_yara_task_call) (trace o) = true
  ∧ calls failed_job (trace o) = [].
Proof.
  cbv zeta. pose proof (calls_only_run _ h _ w a (yara_task_calls job it)) as H.
  split; [exact H|]. revert H. apply calls_excluded. by intros X [].
Qed.

(** X4. [__initialize_agent] (and with it [__load_plugins]) reads the
    plugin configuration, constructs plugins and registers the agent; it
    makes no other call, so a reload never touches a job or a queue. *)
Theorem initialize_agent_footprint {W} (h : Handler W) plugins w a :
  forallb (satisfies is_init_call) (trace (run h w a (initialize_agent plugins))) = true.
Proof. apply calls_only_run, initialize_agent_calls. Qed.

(** ** The rule cache of [compile_yara] *)

Lemma cache_get_put k v c : cache_get k (cache_put k v c) = Some v.
Proof. unfold cache_put, CACHE_MAXSIZE. simpl. by rewrite decide_True. Qed.

Lemma run_compile_yara_hit {W} (h : Handler W) job w a rule :
  cache_get (job_key job) (yara_cache a) = Some rule ->
  run h w a (compile_yara job)
  = MkOutcome w (set_yara_cache (cache_put (job_key job) rule (yara_cache a)) a)
      [] [] (inr rule).
Proof.
  intros Hhit. unfold compile_yara. rewrite run_mbind, run_get_self.
  unfold and_then; cbn [result world self trace logs]. rewrite Hhit. reflexivity.
Qed.

Definition compiling_log : LogRecord := MkLog INFO "Compiling Yara" [].
Definition parse_error_log : LogRecord := MkLog EXCEPTION "Yara parse error" [].

(** The outcome of [compile_yara] on a miss, by the answers of the store and
    of the YARA library. *)
Lemma run_compile_yara_miss {W} (h : Handler W) job w a :
  cache_get (job_key job) (yara_cache a) = None ->
  run h w a (compile_yara job)
  = match h _ (GetYaraByJob job) w with
    | (w1, inl e) => MkOutcome w1 a [Inter (GetYaraByJob job) (inl e)] [] (inl e)
    | (w1, inr src) =>
        match h _ (YaraCompile src) w1 with
        | (w2, inl e) =>
            MkOutcome w2 a
              [Inter (GetYaraByJob job) (inr src); Inter (YaraCompile src) (inl e)]
              (compiling_log :: (if is_syntax_error e then [parse_error_log] else []))
              (inl e)
        | (w2, inr rule) =>
            MkOutcome w2
              (set_yara_cache (cache_put (job_key job) rule (yara_cache a)) a)
              [Inter (GetYaraByJob job) (inr src); Inter (YaraCompile src) (inr rule)]
              [compiling_log] (inr rule)
        end
    end.
Proof.
  intros Hmiss. unfold compile_yara. rewrite run_mbind, run_get_self.
  unfold and_then; cbn [result world self trace logs]. rewrite Hmiss, after_nil.
  simpl. destruct (h _ (GetYaraByJob job) w) as [w1 [e|src]]; simpl; [done|].
  destruct (h _ (YaraCompile src) w1) as [w2 [e|rule]]; simpl; [|done].
  by destruct (is_syntax_error e).
Qed.

(** X5. [compile_yara] is memoised by the key of the job: once a call has
    returned a rule, the next call for the same job, in any environment,
    returns that rule without asking the store for the source or the YARA
    library for a compilation, and logs nothing. *)
Theorem compile_yara_memoized {W} (h : Handler W) job w a rule :
  let o := run h w a (compile_yara job) in
  result o = inr rule ->
  forall W' (h' : Handler W') w',
    let o' := run h' w' (self o) (compile_yara job) in
    result o' = inr rule ∧ trace o' = [] ∧ logs o' = [] ∧ world o' = w'.
Proof.
  cbv zeta. intros Hres W' h' w'.
  assert (cache_get (job_key job) (yara_cache (self (run h w a (compile_yara job))))
          = Some rule) as Hhit.
  { destruct (cache_get (job_key job) (yara_cache a)) as [rule0|] eqn:Hc.
    - rewrite (run_compile_yara_hit h job w a rule0 Hc) in *. injection Hres as ->.
      cbn [self set_yara_cache yara_cache]. apply cache_get_put.
    - rewrite (run_compile_yara_miss h job w a Hc) in *.
      destruct (h _ (GetYaraByJob job) w) as [w1 [e|src]]; [discriminate Hres|].
      destruct (h _ (YaraCompile src) w1) as [w2 [e|rule0]]; [discriminate Hres|].
      injection Hres as ->. cbn [self set_yara_cache yara_cache]. apply cache_get_put. }
  by rewrite (run_compile_yara_hit h' job w' _ rule Hhit).
Qed.

(** Two tasks of the same job on a fresh agent: the second compilation is
    answered from the cache. *)
Lemma compile_yara_memoized_witness :
  let w := Scenario.world_with (Scenario.mk_job "processing" 5 0 0) 1 "it" ["a"] in
  let o := run Model.handle w Scenario.agent0 (compile_yara Scenario.job_id0) in
  length (trace o) = 2%nat
  ∧ trace (run Model.handle (world o) (self o) (compile_yara Scenario.job_id0)) = [].
Proof.
  intros w o. split; [vm_compute; reflexivity|].
  apply (compile_yara_memoized Model.handle Scenario.job_id0 w Scenario.agent0
           (CompiledRuleRef 0)).
  vm_compute; reflexivity.
Defined.

(** X6. A failed compilation is not cached: when [compile_yara] raises, the
    agent's state (the cache included) is what it was, so the next task of
    the job compiles again.  The exception is the one raised by the store's
    [get_yara_by_job] or by [yara.compile]; in the second case
    ["Yara parse error"] is logged exactly when it is a [SyntaxError]. *)
Theorem compile_yara_failure {W} (h : Handler W) job w a e :
  let o := run h w a (compile_yara job) in
  result o = inl e ->
  self o = a
  ∧ cache_get (job_key job) (yara_cache a) = None
  ∧ ((trace o = [Inter (GetYaraByJob job) (inl e)] ∧ logs o = [])
     ∨ exists src,
         trace o = [Inter (GetYaraByJob job) (inr src); Inter (YaraCompile src) (inl e)]
         ∧ logs o
           = compiling_log :: (if is_syntax_error e then [parse_error_log] else [])).
Proof.
  cbv zeta. destruct (cache_get (job_key job) (yara_cache a)) as [rule0|] eqn:Hc.
  { by rewrite (run_compile_yara_hit h job w a rule0 Hc). }
  rewrite (run_compile_yara_miss h job w a Hc).
  destruct (h _ (GetYaraByJob job) w) as [w1 [e1|src]].
  { intros [= ->]. split; [done|]. split; [done|]. by left. }
  destruct (h _ (YaraCompile src) w1) as [w2 [e1|rule0]]; [|discriminate].
  intros [= ->]. split; [done|]. split; [done|]. right. by exists src.
Qed.

(** A store whose YARA library rejects every source with a [SyntaxError]. *)
Definition broken_rule_world : Model.World :=
  Model.MkWorld
    {[ job_key Scenario.job_id0 :=
         Model.MkStoredJob (Scenario.mk_job "processing" 5 0 0) 1 ∅ [] None ]}
    ∅ 1 ∅ ∅ [] [] {[ "it" := ["a"; "b"; "c"; "d"; "e"] ]}
    (fun _ => inl (MkExn SyntaxError "line 1: syntax error"))
    Scenario.matcher0 (fun _ _ _ => inr ∅) ∅.

Lemma compile_yara_failure_witness :
  let o := run Model.handle broken_rule_world Scenario.agent0
             (compile_yara Scenario.job_id0) in
  self o = Scenario.agent0 ∧ logs o = [compiling_log; parse_error_log].
Proof.
  intros o.
  destruct (compile_yara_failure Model.handle Scenario.job_id0 broken_rule_world
              Scenario.agent0 (MkExn SyntaxError "line 1: syntax error"))
    as (Hself & _ & Hlogs); [vm_compute; reflexivity|].
  split; [exact Hself|]. vm_compute. reflexivity.
Defined.

(** ** [__execute_yara] in an arbitrary environment *)

(** The batch a call opens ([job_start_work]) or reports ([job_update_work]). *)
Definition work_started X (ev : Event X) : option (JobId * Z) :=
  match ev with JobStartWork job n => Some (job, n) | _ => None end.

Definition work_updated X (ev : Event X) : option (JobId * Z * Z) :=
  match ev with JobUpdateWork job n m => Some (job, n, m) | _ => None end.

Lemma calls_app {B} (f : forall X, Event X -> option B) t1 t2 :
  calls f (t1 ++ t2) = calls f t1 ++ calls f t2.
Proof. apply omap_app. Qed.

(** X7. When the rule of the job cannot be obtained, [__execute_yara] stops
    there with the exception of [compile_yara]: no batch is opened with
    [job_start_work], no file is matched and nothing is reported. *)
Theorem execute_yara_compile_failure {W} (h : Handler W) job files w a e :
  let c := run h w a (compile_yara job) in
  let o := run h w a (execute_yara job files) in
  result c = inl e ->
  o = MkOutcome (world c) (self c) (trace c) (logs c) (inl e)
  ∧ calls work_started (trace o) = []
  ∧ samples (trace o) = []
  ∧ calls work_updated (trace o) = [].
Proof.
  cbv zeta. intros Hc.
  assert (run h w a (execute_yara job files)
          = MkOutcome (world (run h w a (compile_yara job)))
              (self (run h w a (compile_yara job)))
              (trace (run h w a (compile_yara job)))
              (logs (run h w a (compile_yara job))) (inl e)) as ->.
  { unfold execute_yara. rewrite run_mbind. unfold and_then. by rewrite Hc. }
  split; [done|]. cbn [trace].
  pose proof (calls_only_run _ h _ w a (compile_yara_calls job)) as Ht.
  split; [|split]; revert Ht; apply calls_excluded; by intros X [].
Qed.

Lemma execute_yara_compile_failure_witness :
  let o := run Model.handle broken_rule_world Scenario.agent0
             (execute_yara Scenario.job_id0 ["a"; "b"]) in
  result o = inl (MkExn SyntaxError "line 1: syntax error")
  ∧ calls work_started (trace o) = [].
Proof.
  intros o.
  destruct (execute_yara_compile_failure Model.handle Scenario.job_id0 ["a"; "b"]
              broken_rule_world Scenario.agent0
              (MkExn SyntaxError "line 1: syntax error"))
    as (Ho & Hstart & _); [vm_compute; reflexivity|].
  split; [|exact Hstart]. unfold o. rewrite Ho. reflexivity.
Defined.


Section ScanShape.
Context {W : Type} (h : Handler W).




End ScanShape.



(** ** [__update_metadata] *)

(** The plugin a call runs and the file it is run on. *)
Definition plugin_run X (ev : Event X) : option (MetadataPlugin * string) :=
  match ev with PluginRun p path _ => Some (p, path) | _ => None end.

(** The content of the metadata dictionary after one plugin run: what the
    plugin left in it, updated with the dictionary the plugin returned if it
    returned. *)
Definition metadata_step (metadata : Metadata) (i : Interaction) : Metadata :=
  match i with
  | Inter ev r =>
      match ev in Event X return Exn + X -> Metadata with
      | PluginRun _ _ _ => fun r =>
          match r with
          | inl _ => metadata
          | inr (left_, inl _) => left_
          | inr (left_, inr extracted) => extracted ∪ left_
          end
      | _ => fun _ => metadata
      end r
  end.

Definition metadata_after (metadata : Metadata) (t : list Interaction) : Metadata :=
  foldl metadata_step metadata t.

(** Every plugin run of the trace was handed the dictionary as the runs
    before it had left it. *)
Fixpoint handed_on (metadata : Metadata) (t : list Interaction) : Prop :=
  match t with
  | [] => True
  | i :: t' =>
      match i with
      | Inter ev _ => match ev with PluginRun _ _ acc => acc = metadata | _ => True end
      end
      ∧ handed_on (metadata_step metadata i) t'
  end.

(** The dictionaries returned by the plugin runs of a trace that succeeded. *)
Definition plugin_answer (i : Interaction) : option Metadata :=
  match i with
  | Inter ev r =>
      match ev in Event X return Exn + X -> option Metadata with
      | PluginRun _ _ _ => fun r =>
          match r with inr (_, inr extracted) => Some extracted | _ => None end
      | _ => fun _ => None
      end r
  end.

Definition plugin_answers (t : list Interaction) : list Metadata := omap plugin_answer t.

(** A plugin run that did not write to the dictionary it was handed. *)
Definition leaves_dict (i : Interaction) : bool :=
  match i with
  | Inter ev r =>
      match ev in Event X return Exn + X -> bool with
      | PluginRun _ _ acc => fun r =>
          match r with inr (left_, _) => bool_decide (left_ = acc) | inl _ => true end
      | _ => fun _ => true
      end r
  end.

(** [metadata.update(extracted_meta)] over a list of answers: a later
    answer overrides the keys of an earlier one. *)
Definition updated (metadata : Metadata) (answers : list Metadata) : Metadata :=
  foldl (fun md extracted => extracted ∪ md) metadata answers.

Lemma plugin_answers_app t1 t2 :
  plugin_answers (t1 ++ t2) = plugin_answers t1 ++ plugin_answers t2.
Proof. apply omap_app. Qed.

Lemma run_plugins_protocol {W} (h : Handler W) ps path md w a :
  let o := run h w a (run_plugins ps path md) in
  result o = inr (metadata_after md (trace o))
  ∧ calls plugin_run (trace o) = map (fun p => (p, path)) ps
  ∧ length (trace o) = length ps
  ∧ handed_on md (trace o)
  ∧ self o = a.
Proof.
  revert md w; induction ps as [|p ps IH]; intros md w; cbv zeta; [done|].
  remember (run h w a (run_plugins (p :: ps) path md)) as o eqn:Ho.
  simpl in Ho.
  destruct (h _ (PluginRun p path md) w) as [w' r] eqn:Hcall.
  assert (exists md1,
            (o = after [Inter (PluginRun p path md) r] []
                   (run h w' a (run_plugins ps path md1))
             ∨ exists l, o = after [Inter (PluginRun p path md) r] [l]
                               (run h w' a (run_plugins ps path md1)))
            ∧ md1 = metadata_step md (Inter (PluginRun p path md) r))
    as (md1 & Ho' & Hmd1).
  { destruct r as [e|[left_ [e|extracted]]]; simpl in Ho; eexists; (split; [|reflexivity]);
      subst o; unfold after; simpl; eauto. }
  clear Ho. subst md1.
  destruct (IH (metadata_step md (Inter (PluginRun p path md) r)) w')
    as (Hres & Hcalls & Hlen & Hhanded & Hself).
  destruct (run h w' a (run_plugins ps path _)) as [w2 a2 t2 l2 r2].
  cbn [result trace self] in *.
  assert (trace o = [Inter (PluginRun p path md) r] ++ t2 ∧ result o = r2 ∧ self o = a2)
    as (Ht & Hr & Hs).
  { destruct Ho' as [->|[l ->]]; done. }
  rewrite Ht, Hr, Hs. rewrite calls_app, Hcalls, length_app, Hlen.
  split; [by rewrite Hres|]. split; [done|]. split; [done|]. split; [|done].
  cbn [app handed_on]. done.
Qed.

(** What [__update_metadata] does, in any environment. *)
Lemma run_update_metadata {W} (h : Handler W) job path ms w a :
  let o := run h w a (update_metadata job path ms) in
  exists t r,
    trace o
    = t ++ [Inter (AddMatch job (MkMatchInfo path (metadata_after ∅ t) ms)) r]
    ∧ calls plugin_run t = map (fun p => (p, path)) (active_plugins a)
    ∧ length t = length (active_plugins a)
    ∧ handed_on ∅ t
    ∧ result o = r
    ∧ self o = a.
Proof.
  cbv zeta. remember (run h w a (update_metadata job path ms)) as o eqn:Ho.
  unfold update_metadata in Ho. rewrite run_mbind, run_get_self in Ho.
  unfold and_then at 1 in Ho; cbn [result world self trace logs] in Ho.
  rewrite after_nil, run_mbind in Ho.
  destruct (run_plugins_protocol h (active_plugins a) path ∅ w a)
    as (Hres & Hcalls & Hlen & Hhanded & Hself).
  destruct (run h w a (run_plugins (active_plugins a) path ∅)) as [w1 a1 t1 l1 r1].
  cbn [result trace self] in *. subst r1 a1.
  unfold and_then in Ho; cbn [result world self trace logs] in Ho.
  rewrite run_call in Ho.
  exists t1, (h _ (AddMatch job (MkMatchInfo path (metadata_after ∅ t1) ms)) w1).2.
  subst o. unfold after; cbn [result world self trace logs].
  split; [done|]. split; [done|]. split; [done|]. split; [done|]. split; [|done].
  by destruct (h _ (AddMatch _ _) w1) as [w2 [e|[]]].
Qed.

(** X9. [__update_metadata] runs every active plugin once on the file, in
    the order of [active_plugins], whether or not earlier plugins raised.
    All of them work on one dictionary: each is handed it as the plugins
    before left it, that is with what they wrote to it themselves (also a
    plugin that raised afterwards) and updated with the dictionaries that
    were returned.  The only other call, [add_match], comes last, with the
    file, the matching rule names and the final content of that
    dictionary.  The result is the answer to [add_match]: no plugin failure
    leaves the method. *)
Theorem update_metadata_protocol {W} (h : Handler W) job path ms w a :
  let o := run h w a (update_metadata job path ms) in
  exists t r,
    trace o
    = t ++ [Inter (AddMatch job (MkMatchInfo path (metadata_after ∅ t) ms)) r]
    ∧ calls plugin_run t = map (fun p => (p, path)) (active_plugins a)
    ∧ length t = length (active_plugins a)
    ∧ handed_on ∅ t
    ∧ result o = r
    ∧ self o = a.
Proof. apply run_update_metadata. Qed.

(** A plugin that writes to the dictionary it is handed and then raises,
    followed by one that returns the size of the file. *)
Definition plugin_leaky : MetadataPlugin := MkMetadataPlugin (MkPluginClass "Leaky" []) ∅.
Definition plugin_size : MetadataPlugin := MkMetadataPlugin (MkPluginClass "Size" []) ∅.

Definition leaky_plugins : Handler unit := fun X ev =>
  match ev in Event X return unit -> unit * (Exn + X) with
  | PluginRun p path acc => fun w =>
      if decide (get_name (plugin_class p) = "Leaky")
      then (w, inr (<["leak" := "1"]> acc, inl (MkExn OtherException "plugin failed")))
      else (w, inr (acc, inr {[ "size" := "3" ]}))
  | AddMatch _ _ => fun w => (w, inr tt)
  | _ => fun w => (w, inl (MkExn OtherException "not a call of __update_metadata"))
  end.

(** What the first plugin wrote before it raised reaches [add_match]. *)
Lemma update_metadata_shares_dict :
  trace (run leaky_plugins tt
           (MkAgent "default" "tcp://ursadb:9281" 1 [plugin_leaky; plugin_size] [])
           (update_metadata Scenario.job_id0 "m1" ["r"]))
  = [Inter (PluginRun plugin_leaky "m1" ∅)
       (inr ({[ "leak" := "1" ]}, inl (MkExn OtherException "plugin failed")));
     Inter (PluginRun plugin_size "m1" {[ "leak" := "1" ]})
       (inr ({[ "leak" := "1" ]}, inr {[ "size" := "3" ]}));
     Inter (AddMatch Scenario.job_id0
              (MkMatchInfo "m1" {[ "leak" := "1"; "size" := "3" ]} ["r"])) (inr tt)].
Proof. vm_compute. reflexivity. Qed.

Lemma updated_keeps_keys (answers : list Metadata) (md : Metadata) k :
  is_Some (md !! k) -> is_Some (updated md answers !! k).
Proof.
  revert md; induction answers as [|ex answers IH]; intros md Hk; [done|].
  apply IH. rewrite lookup_union. destruct (ex !! k), Hk as [v ->]; by eexists.
Qed.

Lemma updated_app md answers1 answers2 :
  updated md (answers1 ++ answers2) = updated (updated md answers1) answers2.
Proof. apply foldl_app. Qed.

Lemma updated_last_wins (before later : list Metadata) (extracted : Metadata) k v :
  extracted !! k = Some v ->
  is_Some (updated ∅ (before ++ extracted :: later) !! k)
  ∧ ((forall l, l ∈ later -> l !! k = None) ->
     updated ∅ (before ++ extracted :: later) !! k = Some v).
Proof.
  intros Hk. rewrite updated_app. cbn [updated foldl].
  fold (updated (extracted ∪ updated ∅ before) later).
  assert ((extracted ∪ updated ∅ before) !! k = Some v) as Hnow.
  { by apply lookup_union_Some_l. }
  split; [apply updated_keeps_keys; by eexists|].
  generalize dependent (extracted ∪ updated ∅ before).
  induction later as [|l rest IH]; intros md Hnow Hnone; [done|].
  cbn [updated foldl]. apply IH.
  - rewrite lookup_union_r; [done|]. apply Hnone. by left.
  - intros l' Hl. apply Hnone. by right.
Qed.

(** When no plugin writes to the dictionary it is handed, its final content
    is the empty dictionary updated with the answers, in order. *)
Lemma metadata_after_updated md t :
  forallb leaves_dict t = true ->
  handed_on md t ->
  metadata_after md t = updated md (plugin_answers t).
Proof.
  revert md; induction t as [|[X ev r] t IH]; intros md Hleaves Hhanded; [done|].
  cbn [forallb] in Hleaves. apply andb_prop in Hleaves as [Hi Ht].
  cbn [handed_on] in Hhanded. destruct Hhanded as [Hacc Hrest].
  unfold metadata_after in *. cbn [foldl]. rewrite (IH _ Ht Hrest). clear IH.
  change (Inter ev r :: t) with ([Inter ev r] ++ t).
  rewrite plugin_answers_app, updated_app. f_equal.
  destruct ev; try reflexivity.
  destruct r as [e|[left_ [e|extracted]]]; [reflexivity| |];
    cbn in Hi; apply bool_decide_eq_true_1 in Hi; subst; reflexivity.
Qed.

(** X10. With plugins that do not write to the dictionary they are handed,
    no key is lost from the metadata of a match: a key returned by a plugin
    that succeeded is present in the match record handed to [add_match],
    whatever the other plugins returned or raised, and its value there is
    the one that plugin returned unless a plugin run after it returned the
    key too. *)
Theorem update_metadata_keeps_keys {W} (h : Handler W) job path ms w a
    before extracted later k v :
  let o := run h w a (update_metadata job path ms) in
  forallb leaves_dict (trace o) = true ->
  plugin_answers (trace o) = before ++ extracted :: later ->
  extracted !! k = Some v ->
  exists m r,
    last (trace o) = Some (Inter (AddMatch job m) r)
    ∧ match_file m = path ∧ match_rules m = ms
    ∧ is_Some (match_meta m !! k)
    ∧ ((forall l, l ∈ later -> l !! k = None) -> match_meta m !! k = Some v).
Proof.
  cbv zeta. intros Hleaves Hanswers Hk.
  destruct (run_update_metadata h job path ms w a) as (t & r & Htrace & _ & _ & Hhanded & _).
  rewrite Htrace in *. rewrite plugin_answers_app in Hanswers.
  change (plugin_answers [Inter (AddMatch job _) r]) with (@nil Metadata) in Hanswers.
  rewrite app_nil_r in Hanswers.
  rewrite forallb_app in Hleaves. apply andb_prop in Hleaves as [Hleaves _].
  rewrite (metadata_after_updated ∅ t Hleaves Hhanded), Hanswers.
  eexists _, r. split; [apply last_app_one|]. cbn [match_file match_rules match_meta].
  split; [done|]. split; [done|]. by apply updated_last_wins.
Qed.

(** The plugins of the example: [Hash] returns the digest of the file,
    [Broken] raises, [Size] returns the size of the file; none of them
    writes to the dictionary it is handed. *)
Definition plugin_hash : MetadataPlugin := MkMetadataPlugin (MkPluginClass "Hash" []) ∅.
Definition plugin_broken : MetadataPlugin := MkMetadataPlugin (MkPluginClass "Broken" []) ∅.

Definition plugin_runner0 (p : MetadataPlugin) (path : string) (acc : Metadata)
    : Exn + Metadata :=
  if decide (get_name (plugin_class p) = "Hash") then inr {[ "sha256" := "ab" ]}
  else if decide (get_name (plugin_class p) = "Size") then inr {[ "size" := "3" ]}
  else inl (MkExn OtherException "plugin failed").

Definition plugin_world : Model.World :=
  Model.MkWorld
    {[ job_key Scenario.job_id0 :=
         Model.MkStoredJob (Scenario.mk_job "processing" 5 0 0) 1 ∅ [] None ]}
    ∅ 1 ∅ ∅ [] [] ∅
    (fun _ => inr (CompiledRuleRef 0)) Scenario.matcher0 plugin_runner0 ∅.

Definition plugin_agent : Agent :=
  MkAgent "default" "tcp://ursadb:9281" 1 [plugin_hash; plugin_broken; plugin_size] [].

Lemma update_metadata_keeps_keys_witness :
  let o := run Model.handle plugin_world plugin_agent
             (update_metadata Scenario.job_id0 "m1" ["r"]) in
  exists m r,
    last (trace o) = Some (Inter (AddMatch Scenario.job_id0 m) r)
    ∧ match_file m = "m1" ∧ match_rules m = ["r"]
    ∧ is_Some (match_meta m !! "sha256")
    ∧ ((forall l, l ∈ [ ({[ "size" := "3" ]} : Metadata) ] -> l !! "sha256" = None) ->
       match_meta m !! "sha256" = Some "ab").
Proof.
  apply (update_metadata_keeps_keys Model.handle Scenario.job_id0 "m1" ["r"]
           plugin_world plugin_agent [] {[ "sha256" := "ab" ]} [ {[ "size" := "3" ]} ]
           "sha256" "ab").
  - vm_compute. reflexivity.
  - vm_compute. reflexivity.
  - reflexivity.
Defined.

(** ** [__load_plugins] and [__initialize_agent] *)

(** The plugins whose constructor returned. *)
Definition constructed_plugin (i : Interaction) : option MetadataPlugin :=
  match i with
  | Inter ev r =>
      match ev in Event X return Exn + X -> option MetadataPlugin with
      | PluginInit _ _ => fun r => match r with inr p => Some p | inl _ => None end
      | _ => fun _ => None
      end r
  end.

Definition constructed (t : list Interaction) : list MetadataPlugin :=
  omap constructed_plugin t.

Definition configuration_read X (ev : Event X) : option string :=
  match ev with GetPluginConfiguration name => Some name | _ => None end.

Definition construction X (ev : Event X) : option PluginClass :=
  match ev with PluginInit cls _ => Some cls | _ => None end.

Definition registration X (ev : Event X)
    : option (string * string * list (string * list string) * list string) :=
  match ev with
  | RegisterActiveAgent group url spec active => Some (group, url, spec, active)
  | _ => None
  end.

Lemma constructed_app t1 t2 : constructed (t1 ++ t2) = constructed t1 ++ constructed t2.
Proof. apply omap_app. Qed.

Section Plugins.
Context {W : Type} (h : Handler W).

(** The loop of [__load_plugins]: a constructor that raises costs the agent
    that plugin and nothing else; only a failed configuration read stops the
    loop. *)
Lemma run_load_plugin_classes classes acc w a :
  let o := run h w a (load_plugin_classes classes acc) in
  self o = a
  ∧ calls registration (trace o) = []
  ∧ match result o with
    | inr ps =>
        ps = acc ++ constructed (trace o)
        ∧ calls configuration_read (trace o) = map get_name classes
        ∧ calls construction (trace o) = classes
    | inl e =>
        exists name, last (trace o) = Some (Inter (GetPluginConfiguration name) (inl e))
    end.
Proof.
  revert acc w; induction classes as [|cls classes IH]; intros acc w; cbv zeta.
  { simpl. by rewrite app_nil_r. }
  remember (run h w a (load_plugin_classes (cls :: classes) acc)) as o eqn:Ho.
  simpl in Ho.
  destruct (h _ (GetPluginConfiguration (get_name cls)) w) as [w1 [e|cfg]]; simpl in Ho.
  { subst o. simpl. split; [done|]. split; [done|]. by eexists. }
  destruct (h _ (PluginInit cls cfg) w1) as [w2 [e|p]]; simpl in Ho.
  - destruct (IH acc w2) as (Hself & Hreg & Hres).
    destruct (run h w2 a (load_plugin_classes classes acc)) as [w3 a3 t3 l3 r3].
    cbn [result trace self] in *. subst o. unfold after; cbn [result trace self app].
    change (?i1 :: ?i2 :: t3) with ([i1; i2] ++ t3).
    split; [done|]. rewrite !calls_app, Hreg. split; [done|].
    destruct r3 as [e'|ps].
    + destruct Hres as [name Hlast]. exists name. rewrite last_app, Hlast. done.
    + destruct Hres as (-> & Hcfg & Hcls). rewrite constructed_app, Hcfg, Hcls. done.
  - destruct (IH (acc ++ [p]) w2) as (Hself & Hreg & Hres).
    destruct (run h w2 a (load_plugin_classes classes (acc ++ [p]))) as [w3 a3 t3 l3 r3].
    cbn [result trace self] in *. subst o. unfold after; cbn [result trace self app].
    change (?i1 :: ?i2 :: t3) with ([i1; i2] ++ t3).
    split; [done|]. rewrite !calls_app, Hreg. split; [done|].
    destruct r3 as [e'|ps].
    + destruct Hres as [name Hlast]. exists name. rewrite last_app, Hlast. done.
    + destruct Hres as (-> & Hcfg & Hcls). rewrite constructed_app, Hcfg, Hcls.
      rewrite <- app_assoc. done.
Qed.

End Plugins.

(** X11. [__load_plugins] survives plugins that cannot be constructed.  When
    it returns, the configuration of every class of [METADATA_PLUGINS] was
    read and every class was constructed once, in order; [active_plugins]
    holds the instances whose constructor returned, in order, and the cached
    version is the one read first.  When it raises, the exception is that
    of a configuration read (of the version or of one plugin) and
    [active_plugins] is what it was before. *)
Theorem load_plugins_skips_failing_plugins {W} (h : Handler W) plugins w a :
  let o := run h w a (load_plugins plugins) in
  match result o with
  | inr _ =>
      active_plugins (self o) = constructed (trace o)
      ∧ calls configuration_read (trace o) = map get_name plugins
      ∧ calls construction (trace o) = plugins
      ∧ exists v,
          head (trace o) = Some (Inter GetPluginConfigVersion (inr v))
          ∧ plugin_config_version (self o) = v
  | inl e =>
      active_plugins (self o) = active_plugins a
      ∧ (last (trace o) = Some (Inter GetPluginConfigVersion (inl e))
         ∨ exists name,
             last (trace o) = Some (Inter (GetPluginConfiguration name) (inl e)))
  end.
Proof.
  cbv zeta. remember (run h w a (load_plugins plugins)) as o eqn:Ho.
  unfold load_plugins in Ho. simpl in Ho.
  destruct (h _ GetPluginConfigVersion w) as [w1 [e|v]]; simpl in Ho.
  { subst o. simpl. split; [done|]. by left. }
  rewrite run_mbind in Ho.
  destruct (run_load_plugin_classes h plugins [] w1 (set_plugin_config_version v a))
    as (Hself & _ & Hres).
  destruct (run h w1 (set_plugin_config_version v a) (load_plugin_classes plugins []))
    as [w2 a2 t2 l2 r2].
  cbn [result trace self] in *. subst a2.
  unfold and_then in Ho; cbn [result world self trace logs] in Ho.
  destruct r2 as [e|ps].
  - subst o. unfold after; cbn [result trace self app]. split; [done|]. right.
    destruct Hres as [name Hlast]. exists name.
    change (?i :: t2) with ([i] ++ t2). by rewrite last_app, Hlast.
  - destruct Hres as (-> & Hcfg & Hcls). simpl in Ho. subst o.
    unfold after; cbn [result trace self app]. rewrite app_nil_r.
    change (?i :: t2) with ([i] ++ t2).
    rewrite constructed_app, !calls_app, Hcfg, Hcls.
    split; [done|]. split; [done|]. split; [done|]. by exists v.
Qed.

(** *** The dictionary of plugin specifications *)

Lemma dict_setitem_keys {V} k (v : V) d x :
  x ∈ (dict_setitem k v d).*1 -> x = k ∨ x ∈ d.*1.
Proof.
  induction d as [|[k' v'] d IH]; simpl.
  - intros ->%list_elem_of_singleton. by left.
  - destruct (decide (k = k')) as [->|Hne]; simpl.
    + intros [->|Hx]%elem_of_cons; [by left|]. right. by right.
    + intros [->|Hx]%elem_of_cons; [right; by left|].
      destruct (IH Hx) as [->|Hd]; [by left|]. right. by right.
Qed.

Lemma dict_setitem_NoDup {V} k (v : V) d :
  NoDup d.*1 -> NoDup (dict_setitem k v d).*1.
Proof.
  induction d as [|[k' v'] d IH]; simpl.
  - intros _. apply NoDup_singleton.
  - intros [Hk' Hd]%NoDup_cons. destruct (decide (k = k')) as [->|Hne]; simpl.
    + by apply NoDup_cons.
    + apply NoDup_cons. split; [|by apply IH].
      intros [->|Hin]%dict_setitem_keys; done.
Qed.

Lemma dict_setitem_fresh {V} k (v : V) d :
  k ∉ d.*1 -> dict_setitem k v d = d ++ [(k, v)].
Proof.
  induction d as [|[k' v'] d IH]; simpl; [done|].
  intros Hk. destruct (decide (k = k')) as [->|Hne].
  - destruct Hk. by left.
  - rewrite IH; [done|]. intros Hin. apply Hk. by right.
Qed.

Lemma dict_setitem_set {V} k (v : V) d : (k, v) ∈ dict_setitem k v d.
Proof.
  induction d as [|[k' v'] d IH]; simpl; [by left|].
  destruct (decide (k = k')); [by left|by right].
Qed.

Lemma dict_setitem_other {V} k (v : V) k' (v' : V) d :
  k <> k' -> (k, v) ∈ d -> (k, v) ∈ dict_setitem k' v' d.
Proof.
  intros Hne. induction d as [|[k0 v0] d IH]; simpl; [by intros ?%elem_of_nil|].
  intros [[= <- <-]|Hin]%elem_of_cons.
  - destruct (decide (k' = k)); [congruence|by left].
  - destruct (decide (k' = k0)); right; [done|by apply IH].
Qed.

Definition class_spec (c : PluginClass) : string * list string :=
  (get_name c, config_fields c).

Definition spec_step (d : list (string * list string)) (c : PluginClass)
    : list (string * list string) :=
  dict_setitem (get_name c) (config_fields c) d.

(** The comprehension builds a dictionary: one entry per name; the entry
    of a name holds the fields of the last class with that name; and for
    classes with distinct names the entries are those of the classes, in
    order. *)
Lemma plugins_spec_dict (classes : list PluginClass) :
  NoDup (plugins_spec classes).*1
  ∧ (forall before c later,
       classes = before ++ c :: later ->
       (forall c', c' ∈ later -> get_name c' <> get_name c) ->
       class_spec c ∈ plugins_spec classes)
  ∧ (NoDup (map get_name classes) -> plugins_spec classes = map class_spec classes).
Proof.
  unfold plugins_spec. fold spec_step.
  assert (forall cs d, NoDup d.*1 -> NoDup (foldl spec_step d cs).*1) as Hnodup.
  { induction cs as [|c cs IH]; intros d Hd; [done|].
    cbn [foldl]. apply IH. by apply dict_setitem_NoDup. }
  assert (forall cs d x,
            x ∈ d -> (forall c', c' ∈ cs -> get_name c' <> x.1) ->
            x ∈ foldl spec_step d cs) as Hkeep.
  { induction cs as [|c cs IH]; intros d [k v] Hin Hne; [done|].
    cbn [foldl]. apply IH.
    - apply dict_setitem_other; [|done]. intros ->. by apply (Hne c); [left|].
    - intros c' Hc'. apply Hne. by right. }
  assert (forall cs d,
            NoDup (d.*1 ++ map get_name cs) ->
            foldl spec_step d cs = d ++ map class_spec cs) as Hdistinct.
  { induction cs as [|c cs IH]; intros d Hd; [by rewrite app_nil_r|].
    cbn [foldl map]. unfold spec_step at 2.
    rewrite dict_setitem_fresh.
    - rewrite IH; [by rewrite <- app_assoc|].
      rewrite fmap_app. cbn. rewrite <- app_assoc. exact Hd.
    - apply NoDup_app in Hd as (_ & Hd & _). intros Hin. apply (Hd _ Hin). by left. }
  split; [apply Hnodup; constructor|]. split.
  - intros before c later -> Hlater. rewrite foldl_app. cbn [foldl].
    apply Hkeep; [apply dict_setitem_set|exact Hlater].
  - intros Hd. by rewrite Hdistinct.
Qed.

(** What [__initialize_agent] does when it returns, in an environment that
    answered the first read of the version with [v]. *)
Lemma run_initialize_agent_read {W} (h : Handler W) plugins w w1 a v :
  h _ GetPluginConfigVersion w = (w1, inr v) ->
  let o := run h w a (initialize_agent plugins) in
  result o = inr tt ->
  exists t,
    trace o
    = Inter GetPluginConfigVersion (inr v)
      :: t ++ [Inter (RegisterActiveAgent (group_id a) (ursa_url a)
                        (plugins_spec plugins)
                        (map (fun p => get_name (plugin_class p)) (constructed t)))
                 (inr tt)]
    ∧ calls registration t = []
    ∧ calls construction t = plugins
    ∧ calls configuration_read t = map get_name plugins
    ∧ self o
      = set_active_plugins (constructed t) (set_plugin_config_version v a).
Proof.
  intros Hread. cbv zeta. remember (run h w a (initialize_agent plugins)) as o eqn:Ho.
  unfold initialize_agent, load_plugins in Ho. simpl in Ho. rewrite Hread in Ho.
  simpl in Ho. change (Prog_bind ?A ?B ?f ?p) with (bind p f) in Ho.
  rewrite run_bind, run_mbind in Ho.
  destruct (run_load_plugin_classes h plugins [] w1 (set_plugin_config_version v a))
    as (Hself & Hreg & Hres).
  destruct (run h w1 (set_plugin_config_version v a) (load_plugin_classes plugins []))
    as [w2 a2 t2 l2 r2].
  cbn [result trace self] in *. subst a2.
  unfold and_then in Ho; cbn [result world self trace logs] in Ho.
  destruct r2 as [e|ps]; [subst o; discriminate|].
  destruct Hres as (-> & Hcfg & Hcls). simpl in Ho.
  destruct (h _ (RegisterActiveAgent _ _ _ _) w2) as [w3 [e|[]]]; simpl in Ho;
    subst o; simpl; [discriminate|].
  intros _. exists t2. by rewrite app_nil_r.
Qed.

(** What [__initialize_agent] does when it returns. *)
Lemma run_initialize_agent_registers {W} (h : Handler W) plugins w a :
  let o := run h w a (initialize_agent plugins) in
  result o = inr tt ->
  exists t v,
    trace o
    = t ++ [Inter (RegisterActiveAgent (group_id a) (ursa_url a)
                     (plugins_spec plugins)
                     (map (fun p => get_name (plugin_class p)) (constructed t)))
              (inr tt)]
    ∧ calls registration t = []
    ∧ calls construction t = plugins
    ∧ head t = Some (Inter GetPluginConfigVersion (inr v))
    ∧ self o
      = set_active_plugins (constructed t) (set_plugin_config_version v a)
    ∧ calls configuration_read t = map get_name plugins.
Proof.
  cbv zeta. destruct (h _ GetPluginConfigVersion w) as [w1 [e|v]] eqn:Hread.
  { unfold initialize_agent, load_plugins. simpl. rewrite Hread. discriminate. }
  intros Hres.
  destruct (run_initialize_agent_read h plugins w w1 a v Hread Hres)
    as (t & Htrace & Hreg & Hcls & Hcfg & Hself).
  exists (Inter GetPluginConfigVersion (inr v) :: t), v.
  change (Inter GetPluginConfigVersion (inr v) :: t)
    with ([Inter GetPluginConfigVersion (inr v)] ++ t).
  rewrite constructed_app, !calls_app, Hreg, Hcls, Hcfg. done.
Qed.

(** X12. When [__initialize_agent] returns, its last call registered the
    agent under its group and URL with the dictionary [plugins_spec] and
    with the names of the plugins that were constructed; these are the
    agent's active plugins from then on.  It registered once, after the
    configuration of every class had been read and every constructor had
    run, and changed nothing of the agent but the cached version and the
    active plugins.  [plugins_spec] is built from every class of
    [METADATA_PLUGINS], constructed or not: it has one entry per name, the
    entry of a name holds the configuration fields of the last class with
    that name, and when the names are distinct it lists the name and the
    fields of every class, in order. *)
Theorem initialize_agent_registers {W} (h : Handler W) plugins w a :
  let o := run h w a (initialize_agent plugins) in
  (result o = inr tt ->
   exists t v,
     trace o
     = t ++ [Inter (RegisterActiveAgent (group_id a) (ursa_url a)
                      (plugins_spec plugins)
                      (map (fun p => get_name (plugin_class p)) (constructed t)))
               (inr tt)]
     ∧ calls registration t = []
     ∧ calls construction t = plugins
     ∧ head t = Some (Inter GetPluginConfigVersion (inr v))
     ∧ self o
       = set_active_plugins (constructed t) (set_plugin_config_version v a)
     ∧ calls configuration_read t = map get_name plugins)
  ∧ NoDup (plugins_spec plugins).*1
  ∧ (forall before c later,
       plugins = before ++ c :: later ->
       (forall c', c' ∈ later -> get_name c' <> get_name c) ->
       (get_name c, config_fields c) ∈ plugins_spec plugins)
  ∧ (NoDup (map get_name plugins) ->
     plugins_spec plugins = map (fun c => (get_name c, config_fields c)) plugins).
Proof.
  cbv zeta. split; [apply run_initialize_agent_registers|]. apply plugins_spec_dict.
Qed.

(** A store of plugin configuration in which the constructor of the class
    [Broken] raises. *)
Definition broken_plugin_store : Handler Z := fun X ev =>
  match ev in Event X return Z -> Z * (Exn + X) with
  | PluginInit cls config => fun v =>
      if decide (get_name cls = "Broken")
      then (v, inl (MkExn OtherException "missing configuration"))
      else (v, inr (MkMetadataPlugin cls config))
  | ev' => Scenario.version_store _ ev'
  end.

Definition broken_class : PluginClass := MkPluginClass "Broken" ["key"].

(** Two classes that share a name. *)
Definition dup_class_a : PluginClass := MkPluginClass "Dup" ["a"].
Definition dup_class_b : PluginClass := MkPluginClass "Dup" ["b"].

(** The class that cannot be constructed is registered in the
    specification and not among the active plugins; of two classes with one
    name, the later one is registered. *)
Lemma initialize_agent_registers_witness :
  (let o := run broken_plugin_store 7 Scenario.agent0
              (initialize_agent [broken_class; Scenario.plugin0]) in
   calls registration (trace o)
   = [("default", "tcp://ursadb:9281", [("Broken", ["key"]); ("TestPlugin", ["url"])],
       ["TestPlugin"])])
  ∧ plugins_spec [broken_class; Scenario.plugin0]
    = [("Broken", ["key"]); ("TestPlugin", ["url"])]
  ∧ ("Dup", ["b"]) ∈ plugins_spec [dup_class_a; dup_class_b]
  ∧ plugins_spec [dup_class_a; dup_class_b] = [("Dup", ["b"])].
Proof.
  split; [|split; [|split]].
  - cbv zeta.
    destruct (initialize_agent_registers broken_plugin_store
                [broken_class; Scenario.plugin0] 7 Scenario.agent0)
      as (Hrun & _).
    destruct Hrun as (t & v & Htrace & Hreg & _); [vm_compute; reflexivity|].
    rewrite Htrace, calls_app, Hreg.
    assert (constructed t = [MkMetadataPlugin Scenario.plugin0 ∅]) as ->.
    { assert (constructed
                (trace (run broken_plugin_store 7 Scenario.agent0
                          (initialize_agent [broken_class; Scenario.plugin0])))
              = [MkMetadataPlugin Scenario.plugin0 ∅]) as Hc
        by (vm_compute; reflexivity).
      rewrite Htrace, constructed_app in Hc. cbn in Hc. by rewrite app_nil_r in Hc. }
    reflexivity.
  - apply (initialize_agent_registers broken_plugin_store [broken_class; Scenario.plugin0]
             7 Scenario.agent0). by_decide.
  - destruct (initialize_agent_registers broken_plugin_store [dup_class_a; dup_class_b]
                7 Scenario.agent0) as (_ & _ & Hlast & _).
    apply (Hlast [dup_class_a] dup_class_b []); [reflexivity|].
    by intros c' ?%elem_of_nil.
  - reflexivity.
Defined.

(** ** The reload protocol *)




Definition reload_info_log : LogRecord :=
  MkLog INFO "Configuration changed - reloading plugins." [].






(** ** [__search_task]: the early exits *)

Definition parsing_log : LogRecord := MkLog INFO "Parsing..." [].
Definition cancelled_log : LogRecord := MkLog INFO "Job was cancelled, returning..." [].
Definition nothing_to_query_log : LogRecord := MkLog INFO "Nothing to query, returning..." [].

(** X13. A SEARCH task for a cancelled job does nothing: after the read of
    the job the handler logs and returns, having asked nothing of the
    backend and changed nothing in the store or in the agent. *)
Theorem search_task_cancelled {W} (h : Handler W) w w1 a job j :
  h _ (GetJob job) w = (w1, inr j) ->
  status j = "cancelled" ->
  run h w a (search_task job)
  = MkOutcome w1 a [Inter (GetJob job) (inr j)] [parsing_log; cancelled_log] (inr tt).
Proof.
  intros Hget Hst. unfold search_task. simpl. rewrite Hget. simpl.
  destruct (decide (status j = "cancelled")); [reflexivity|done].
Qed.

Lemma search_task_cancelled_witness :
  let w := Scenario.pending_dataset_world "cancelled" in
  run Model.handle w Scenario.agent0 (search_task Scenario.job_id0)
  = MkOutcome w Scenario.agent0
      [Inter (GetJob Scenario.job_id0) (inr (Scenario.mk_job "cancelled" 0 0 0))]
      [parsing_log; cancelled_log] (inr tt).
Proof.
  intros w.
  apply (search_task_cancelled Model.handle w w Scenario.agent0 Scenario.job_id0
           (Scenario.mk_job "cancelled" 0 0 0)); reflexivity.
Defined.

(** The error messages of the backend found in a trace. *)
Definition topology_error (i : Interaction) : option string :=
  match i with
  | Inter ev r =>
      match ev in Event X return Exn + X -> option string with
      | UrsaTopology => fun r => match r with inr (UrsaError msg) => Some msg | _ => None end
      | _ => fun _ => None
      end r
  end.

Definition query_error (i : Interaction) : option string :=
  match i with
  | Inter ev r =>
      match ev in Event X return Exn + X -> option string with
      | UrsaQuery _ _ _ => fun r => match r with inr (UrsaError msg) => Some msg | _ => None end
      | _ => fun _ => None
      end r
  end.

(** The dataset bookkeeping of a new job. *)
Definition datasets_init X (ev : Event X) : option (string * JobId * list string) :=
  match ev with InitJobDatasets group job ds => Some (group, job, ds) | _ => None end.

Definition topology_call X (ev : Event X) : option unit :=
  match ev with UrsaTopology => Some tt | _ => None end.

Definition dataset_claim X (ev : Event X) : option (string * JobId) :=
  match ev with GetNextSearchDataset group job => Some (group, job) | _ => None end.

Definition query_call X (ev : Event X) : option (string * option string * string) :=
  match ev with UrsaQuery q taint ds => Some (q, taint, ds) | _ => None end.

(** X14. An error answered by the backend becomes a [RuntimeError] carrying
    the backend's message.  If the topology request is answered with an
    error, the handler raises before it records any dataset for the job or
    claims one; if the query is, it raises before any of the three store
    calls, so [total_files] is not touched and nothing is enqueued.  In
    both cases the failed request is the last call of the handler. *)
Theorem search_task_backend_error {W} (h : Handler W) w a job :
  let o := run h w a (search_task job) in
  (omap topology_error (trace o) = []
   ∨ exists msg,
       omap topology_error (trace o) = [msg]
       ∧ result o = inl (MkExn RuntimeError msg)
       ∧ last (trace o) = Some (Inter UrsaTopology (inr (UrsaError msg)))
       ∧ calls datasets_init (trace o) = []
       ∧ calls dataset_claim (trace o) = []
       ∧ search_ops (trace o) = [])
  ∧ (omap query_error (trace o) = []
     ∨ exists msg,
         omap query_error (trace o) = [msg]
         ∧ result o = inl (MkExn RuntimeError msg)
         ∧ (exists q taint ds,
              last (trace o) = Some (Inter (UrsaQuery q taint ds) (inr (UrsaError msg))))
         ∧ search_ops (trace o) = []).
Proof.
  cbv zeta. remember (run h w a (search_task job)) as o eqn:Ho.
  unfold search_task in Ho.
  repeat run_step h Ho; subst o; simpl;
    (split; [first [by left | right; eexists; repeat split; reflexivity]
            |first [by left | right; eexists; repeat split; eauto]]).
Qed.

(** X15. The datasets of a job are set up by the first SEARCH task only.
    For a job that is not [new] the handler neither asks the backend for
    its topology nor calls [init_job_datasets].  For a [new] job it does
    both before anything else, passing the store the datasets the backend
    listed, under the agent's group; it does so once. *)
Theorem search_task_initialises_new_jobs {W} (h : Handler W) w w1 a job j :
  h _ (GetJob job) w = (w1, inr j) ->
  let o := run h w a (search_task job) in
  (status j <> "new" ->
   calls topology_call (trace o) = [] ∧ calls datasets_init (trace o) = [])
  ∧ (forall w2 ds,
       status j = "new" ->
       h _ UrsaTopology w1 = (w2, inr (UrsaOk ds)) ->
       exists r t,
         trace o
         = Inter (GetJob job) (inr j) :: Inter UrsaTopology (inr (UrsaOk ds))
           :: Inter (InitJobDatasets (group_id a) job ds) r :: t
         ∧ calls topology_call t = [] ∧ calls datasets_init t = []).
Proof.
  intros Hget. cbv zeta. remember (run h w a (search_task job)) as o eqn:Ho.
  unfold search_task in Ho. simpl in Ho. rewrite Hget in Ho. simpl in Ho. split.
  - intros Hnew.
    destruct (decide (status j = "cancelled")); [by subst o|].
    destruct (decide (status j = "new")); [done|].
    repeat run_step h Ho; subst o; simpl; done.
  - intros w2 ds Hnew Htopo.
    destruct (decide (status j = "cancelled")) as [Hc|_]; [congruence|].
    destruct (decide (status j = "new")) as [_|?]; [|done].
    simpl in Ho. rewrite Htopo in Ho. simpl in Ho.
    destruct (h _ (InitJobDatasets (group_id a) job ds) w2) as [w3 r] eqn:Hinit.
    exists r. destruct r as [e|[]]; simpl in Ho; [subst o; by eexists|].
    repeat run_step h Ho; subst o; simpl; by eexists.
Qed.

Lemma search_task_initialises_new_jobs_witness :
  (let o := run Model.handle (Scenario.pending_dataset_world "processing")
              Scenario.agent0 (search_task Scenario.job_id0) in
   calls topology_call (trace o) = [] ∧ calls datasets_init (trace o) = [])
  ∧ (let o := run Model.handle (Scenario.new_job_world [("ds0", ["a"; "b"; "c"])])
                Scenario.agent0 (search_task Scenario.job_id0) in
     calls datasets_init (trace o) = [("default", Scenario.job_id0, ["ds0"])]).
Proof.
  split.
  - destruct (search_task_initialises_new_jobs Model.handle
                (Scenario.pending_dataset_world "processing")
                (Scenario.pending_dataset_world "processing")
                Scenario.agent0 Scenario.job_id0
                (Scenario.mk_job "processing" 0 0 0) eq_refl) as [Hold _].
    apply Hold. vm_compute. discriminate.
  - destruct (search_task_initialises_new_jobs Model.handle
                (Scenario.new_job_world [("ds0", ["a"; "b"; "c"])])
                (Scenario.new_job_world [("ds0", ["a"; "b"; "c"])])
                Scenario.agent0 Scenario.job_id0
                (Scenario.mk_job "new" 0 0 0) eq_refl) as [_ Hnew].
    cbv zeta.
    destruct (Hnew (Scenario.new_job_world [("ds0", ["a"; "b"; "c"])]) ["ds0"]
                eq_refl eq_refl) as (r & t & Htrace & _ & Hinit).
    rewrite Htrace.
    change (?i1 :: ?i2 :: ?i3 :: t) with ([i1; i2; i3] ++ t).
    rewrite calls_app, Hinit. reflexivity.
Defined.

(** The answers of the store to the claim of the next dataset. *)
Definition claimed_dataset (i : Interaction) : option (option string) :=
  match i with
  | Inter ev r =>
      match ev in Event X return Exn + X -> option (option string) with
      | GetNextSearchDataset _ _ => fun r => match r with inr d => Some d | _ => None end
      | _ => fun _ => None
      end r
  end.

(** X16. When the store has no dataset left for the group, the SEARCH task
    ends there: the handler returns normally without parsing the rule or
    querying the backend, and without any of the three store calls, so no
    further task is enqueued for the job by this group. *)
Theorem search_task_no_dataset {W} (h : Handler W) w a job :
  let o := run h w a (search_task job) in
  omap claimed_dataset (trace o) = [None] ->
  result o = inr tt
  ∧ calls query_call (trace o) = []
  ∧ search_ops (trace o) = []
  ∧ last (logs o) = Some nothing_to_query_log
  ∧ exists group, last (trace o) = Some (Inter (GetNextSearchDataset group job) (inr None)).
Proof.
  cbv zeta. remember (run h w a (search_task job)) as o eqn:Ho.
  unfold search_task in Ho.
  repeat run_step h Ho; subst o; simpl; try discriminate;
    intros _; repeat split; try done; by eexists.
Qed.

Lemma search_task_no_dataset_witness :
  let o := run Model.handle
             (Scenario.world_with (Scenario.mk_job "processing" 5 5 0) 0 "it" [])
             Scenario.agent0 (search_task Scenario.job_id0) in
  result o = inr tt ∧ search_ops (trace o) = [].
Proof.
  intros o.
  destruct (search_task_no_dataset Model.handle
              (Scenario.world_with (Scenario.mk_job "processing" 5 5 0) 0 "it" [])
              Scenario.agent0 Scenario.job_id0) as (Hres & _ & Hops & _);
    [vm_compute; reflexivity|].
  by split.
Defined.

(** ** [__process_task]: what the [try] does not cover *)

Lemma json_getitem_missing fields key :
  key ∉ fields.*1 ->
  json_getitem (JObject fields) key = Raise (MkExn KeyError (repr key)).
Proof.
  intros Hkey. unfold json_getitem.
  destruct (list_find _ fields) as [[i [k v]]|] eqn:Hfind; [|done].
  apply list_find_Some in Hfind as (Hi & Hk & _). cbn in Hk. subst k.
  destruct Hkey. apply list_elem_of_fmap. exists (key, v). split; [done|].
  by eapply list_elem_of_lookup_2.
Qed.

(** X17. The payload of a YARA task is decoded before the [try]: when
    [json.loads] raises, or the decoded value has no ["job"] or no
    ["iterator"] entry, the exception leaves the dispatcher.  Nothing is
    logged, and neither [agent_finish_job] nor [fail_job] is called: the
    only call made is [json.loads].  For an object without the key the
    exception is a [KeyError] whose [str] is the key between single
    quotes. *)
Theorem process_task_malformed_payload {W} (h : Handler W) plugins w w0 a d :
  (forall e,
     h _ (JsonLoads d) w = (w0, inl e) ->
     run h w a (process_task plugins (MkAgentTask YARA d))
     = MkOutcome w0 a [Inter (JsonLoads d) (inl e)] [] (inl e))
  ∧ (forall payload e,
       h _ (JsonLoads d) w = (w0, inr payload) ->
       json_getitem payload "job" = Raise e
       ∨ (exists jk, json_getitem payload "job" = Ret jk)
         ∧ json_getitem payload "iterator" = Raise e ->
       run h w a (process_task plugins (MkAgentTask YARA d))
       = MkOutcome w0 a [Inter (JsonLoads d) (inr payload)] [] (inl e))
  ∧ (forall fields,
       "job" ∉ fields.*1 ->
       json_getitem (JObject fields) "job" = Raise (MkExn KeyError "'job'"))
  ∧ (forall fields,
       "iterator" ∉ fields.*1 ->
       json_getitem (JObject fields) "iterator" = Raise (MkExn KeyError "'iterator'")).
Proof.
  split; [|split; [|split]].
  - intros e Hjson. unfold process_task; cbn [type data].
    rewrite run_mbind, run_call, Hjson. reflexivity.
  - intros payload e Hjson Hbad. unfold process_task; cbn [type data].
    rewrite run_mbind, (run_call_ok h _ _ _ _ _ Hjson).
    unfold and_then; cbn [result world self trace logs].
    destruct Hbad as [Hjob|[[jk Hjob] Hit]]; rewrite Hjob; cbn [mbind Prog_bind bind].
    + reflexivity.
    + rewrite Hit. reflexivity.
  - intros fields Hkey. by rewrite json_getitem_missing.
  - intros fields Hkey. by rewrite json_getitem_missing.
Qed.

Lemma process_task_malformed_payload_witness :
  run Model.handle Scenario.lost_iterator_world Scenario.agent0
    (process_task [] (MkAgentTask YARA "not json"))
  = MkOutcome Scenario.lost_iterator_world Scenario.agent0
      [Inter (JsonLoads "not json") (inl (MkExn OtherException "Expecting value"))] []
      (inl (MkExn OtherException "Expecting value"))
  ∧ json_getitem (JObject [("iterator", "it")]) "job" = Raise (MkExn KeyError "'job'").
Proof.
  destruct (process_task_malformed_payload Model.handle [] Scenario.lost_iterator_world
              Scenario.lost_iterator_world Scenario.agent0 "not json")
    as (Hloads & _ & Hkey & _).
  split.
  - apply Hloads. reflexivity.
  - apply Hkey. by_decide.
Defined.

(** X18. A handler that returns is left alone by the dispatcher: the run of
    a SEARCH or YARA task is then the run of its handler after the
    dispatcher's log line (and, for YARA, the decoding of the payload).
    No [agent_finish_job] and no [fail_job] is added by the dispatcher. *)
Theorem process_task_passes_success {W} (h : Handler W) (plugins : list PluginClass) :
  (forall w a d,
     let job := MkJobId d in
     let o := run h w a (search_task job) in
     result o = inr tt ->
     run h w a (process_task plugins (MkAgentTask SEARCH d))
     = after [] [search_log job] o)
  ∧ (forall w a d w0 payload jk it,
       h _ (JsonLoads d) w = (w0, inr payload) ->
       json_getitem payload "job" = Ret jk ->
       json_getitem payload "iterator" = Ret it ->
       let job := MkJobId jk in
       let o := run h w0 a (yara_task job it) in
       result o = inr tt ->
       run h w a (process_task plugins (MkAgentTask YARA d))
       = after [Inter (JsonLoads d) (inr payload)] [yara_log it] o).
Proof.
  split.
  - intros w a d job o Hres. unfold process_task; cbn [type data].
    rewrite run_mbind, run_logging. unfold and_then; cbn [result world self trace logs].
    rewrite run_guarded. fold job. fold o. by rewrite Hres.
  - intros w a d w0 payload jk it Hjson Hjob Hit job o Hres.
    unfold process_task; cbn [type data].
    rewrite run_mbind, (run_call_ok h _ _ _ _ _ Hjson).
    unfold and_then at 1; cbn [result world self trace logs].
    rewrite Hjob. cbn [mbind Prog_bind bind]. rewrite Hit. cbn [mbind Prog_bind bind].
    rewrite run_mbind, run_logging. unfold and_then; cbn [result world self trace logs].
    rewrite run_guarded. fold job. fold o. rewrite Hres.
    by rewrite after_after.
Qed.

Lemma process_task_passes_success_witness :
  let o := run Model.handle (Scenario.pending_dataset_world "processing") Scenario.agent0
             (process_task [] (MkAgentTask SEARCH (job_key Scenario.job_id0))) in
  result o = inr tt
  ∧ calls finished_job (trace o) = []
  ∧ calls failed_job (trace o) = [].
Proof.
  destruct (process_task_passes_success Model.handle []) as [Hsearch _].
  cbv zeta. rewrite Hsearch; [|vm_compute; reflexivity].
  repeat split; vm_compute; reflexivity.
Defined.

(** X19. The exception boundary of the dispatcher has a hole: when the
    handler raised and [agent_finish_job] raises in turn, that second
    exception leaves the dispatcher and [fail_job] is not called, so the
    job is not marked as failed. *)
Theorem process_task_finish_failure_escapes {W} (h : Handler W)
    (plugins : list PluginClass) w a d e w2 e2 :
  let job := MkJobId d in
  let o := run h w a (search_task job) in
  result o = inl e ->
  h _ (AgentFinishJob job) (world o) = (w2, inl e2) ->
  let o' := run h w a (process_task plugins (MkAgentTask SEARCH d)) in
  o' = MkOutcome w2 (self o) (trace o ++ [Inter (AgentFinishJob job) (inl e2)])
         (search_log job :: logs o ++ [failed_log]) (inl e2)
  ∧ calls failed_job (trace o') = [].
Proof.
  intros job o Hres Hfinish o'.
  assert (o' = MkOutcome w2 (self o) (trace o ++ [Inter (AgentFinishJob job) (inl e2)])
                 (search_log job :: logs o ++ [failed_log]) (inl e2)) as Ho'.
  { unfold o', process_task; cbn [type data].
    rewrite run_mbind, run_logging. unfold and_then; cbn [result world self trace logs].
    rewrite run_guarded. fold job. fold o. rewrite Hres. cbv zeta.
    unfold fail_task. rewrite run_mbind, run_logging.
    unfold and_then at 1; cbn [result world self trace logs].
    rewrite run_mbind, run_call, Hfinish.
    unfold and_then, after; cbn [result world self trace logs fst snd app].
    reflexivity. }
  split; [exact Ho'|]. rewrite Ho'. cbn [trace]. rewrite calls_app.
  pose proof (calls_only_run _ h _ w a (search_task_calls job)) as Ht. fold o in Ht.
  rewrite (calls_excluded is_search_call failed_job (trace o)); [done| |done].
  by intros X [].
Qed.

(** A SEARCH task for a job the store does not know: the read of the job
    fails, and so does [agent_finish_job]. *)
Lemma process_task_finish_failure_escapes_witness :
  let o' := run Model.handle Scenario.lost_dataset_world Scenario.agent0
              (process_task [] (MkAgentTask SEARCH "job:unknown")) in
  result o' = inl Model.no_such_job ∧ calls failed_job (trace o') = [].
Proof.
  destruct (process_task_finish_failure_escapes Model.handle []
              Scenario.lost_dataset_world Scenario.agent0 "job:unknown"
              Model.no_such_job Scenario.lost_dataset_world Model.no_such_job)
    as [Ho Hfail]; [vm_compute; reflexivity ..|].
  cbv zeta. split; [by rewrite Ho|exact Hfail].
Defined.

(** ** [__yara_task]: re-enqueueing and finishing *)

(** The task a call puts back on the queue, if it is [agent_start_job]. *)
Definition requeued X (ev : Event X) : option (string * JobId * string) :=
  match ev with AgentStartJob group job it => Some (group, job, it) | _ => None end.

(** What [__yara_task] can call once it has decided about re-enqueueing. *)
Definition is_yara_tail_call : EventPred := fun X ev =>
  match ev with
  | GetJob _ | AgentFinishJob _ => true
  | _ => is_scan_call _ ev
  end.

(** The bookkeeping calls of [__yara_task], the scan apart. *)
Definition is_queue_call : EventPred := fun X ev =>
  match ev with
  | GetJob _ | UrsaPop _ _ | AgentStartJob _ _ _ | AgentFinishJob _ => true
  | _ => false
  end.

(** Lines 212-215: the second read of the job and the decision to finish. *)
Definition finish_if_done (job : JobId) : Prog unit :=
  j ← call (GetJob job);
  if bool_decide (status j = "processing") && bool_decide (files_processed j = total_files j)
  then call (AgentFinishJob job)
  else Ret tt.

(** [__yara_task] from the pop on. *)
Lemma run_yara_task_popped {W} (h : Handler W) w w1 w2 a job it j pop :
  h _ (GetJob job) w = (w1, inr j) ->
  status j ∉ final_statuses ->
  h _ (UrsaPop it (batch_size j)) w1 = (w2, inr pop) ->
  run h w a (yara_task job it)
  = after [Inter (GetJob job) (inr j); Inter (UrsaPop it (batch_size j)) (inr pop)] []
      (run h w2 a
         ((if iterator_empty pop then Ret tt
           else a ← get_self; call (AgentStartJob (group_id a) job it));;
          (match files pop with
           | [] => Ret tt
           | _ :: _ => execute_yara job (files pop)
           end);;
          finish_if_done job)).
Proof.
  intros Hget Hst Hpop. unfold yara_task.
  rewrite run_mbind, (run_call_ok h _ _ _ _ _ Hget).
  unfold and_then at 1; cbn [result world self trace logs].
  destruct (decide (status j ∈ final_statuses)); [done|].
  rewrite run_mbind, (run_call_ok h _ _ _ _ _ Hpop).
  unfold and_then at 1; cbn [result world self trace logs].
  by rewrite after_after.
Qed.

Lemma yara_tail_calls job (fs : list string) :
  calls_only is_yara_tail_call
    ((match fs with
      | [] => Ret tt
      | _ :: _ => execute_yara job fs
      end);;
     finish_if_done job).
Proof.
  apply calls_only_mbind.
  { destruct fs; [done|].
    apply (calls_only_weaken is_scan_call); [by intros X []|].
    apply execute_yara_calls. }
  intros _. unfold finish_if_done.
  apply calls_only_mbind; [by apply calls_only_call|]. intros j2.
  destruct (_ && _); [by apply calls_only_call|done].
Qed.

(** X20. The task goes back on the queue before the popped files are
    scanned, once, and only if the backend says the iterator still holds
    files.  When the pop reports the iterator empty, [agent_start_job] is
    not called at all.  Otherwise it is the call that follows the pop, for
    the same job and iterator under the agent's group, and it is not
    repeated; so other agents can take the next batch while this one
    scans. *)
Theorem yara_task_requeues_first {W} (h : Handler W) w w1 w2 a job it j pop :
  h _ (GetJob job) w = (w1, inr j) ->
  status j ∉ final_statuses ->
  h _ (UrsaPop it (batch_size j)) w1 = (w2, inr pop) ->
  let o := run h w a (yara_task job it) in
  (iterator_empty pop = true -> calls requeued (trace o) = [])
  ∧ (iterator_empty pop = false ->
     exists r t,
       trace o
       = Inter (GetJob job) (inr j) :: Inter (UrsaPop it (batch_size j)) (inr pop)
         :: Inter (AgentStartJob (group_id a) job it) r :: t
       ∧ calls requeued t = []).
Proof.
  intros Hget Hst Hpop. cbv zeta.
  rewrite (run_yara_task_popped h w w1 w2 a job it j pop Hget Hst Hpop).
  assert (forall w' a',
            calls requeued
              (trace (run h w' a'
                        ((match files pop with
                          | [] => Ret tt
                          | _ :: _ => execute_yara job (files pop)
                          end);;
                         finish_if_done job))) = []) as Htail.
  { intros w' a'. apply (calls_excluded is_yara_tail_call); [by intros X []|].
    apply calls_only_run, yara_tail_calls. }
  split; intros Hempty; rewrite Hempty.
  - unfold after; cbn [trace]. rewrite run_mbind. cbn [run].
    unfold and_then; cbn [result world self trace logs app].
    rewrite after_nil.
    change (?i1 :: ?i2 :: ?t) with ([i1; i2] ++ t). by rewrite calls_app, Htail.
  - rewrite run_mbind, run_mbind, run_get_self.
    unfold and_then at 2; cbn [result world self trace logs]. rewrite after_nil, run_call.
    destruct (h _ (AgentStartJob (group_id a) job it) w2) as [w3 r]. cbn [fst snd].
    exists r. destruct r as [e|[]]; unfold and_then, after;
      cbn [result world self trace logs app]; [by exists []|].
    eexists. split; [reflexivity|]. apply Htail.
Qed.

Lemma yara_task_requeues_first_witness :
  let fs := ["f01"; "f02"; "f03"; "f04"; "f05"; "f06"; "f07"; "f08"; "f09"; "f10";
             "f11"; "f12"] in
  let o := run Model.handle
             (Scenario.world_with (Scenario.mk_job "processing" 12 0 0) 1 "it" fs)
             Scenario.agent0 (yara_task Scenario.job_id0 "it") in
  exists r t,
    trace o
    = Inter (GetJob Scenario.job_id0) (inr (Scenario.mk_job "processing" 12 0 0))
      :: Inter (UrsaPop "it" 10) (inr (MkPopResult (take 10 fs) false))
      :: Inter (AgentStartJob "default" Scenario.job_id0 "it") r :: t
    ∧ calls requeued t = [].
Proof.
  intros fs.
  destruct (yara_task_requeues_first Model.handle
              (Scenario.world_with (Scenario.mk_job "processing" 12 0 0) 1 "it" fs)
              (Scenario.world_with (Scenario.mk_job "processing" 12 0 0) 1 "it" fs)
              (Model.set_iterators (insert "it" (drop 10 fs))
                 (Scenario.world_with (Scenario.mk_job "processing" 12 0 0) 1 "it" fs))
              Scenario.agent0 Scenario.job_id0 "it"
              (Scenario.mk_job "processing" 12 0 0) (MkPopResult (take 10 fs) false))
    as [_ Hrequeue].
  - reflexivity.
  - by_decide.
  - vm_compute. reflexivity.
  - apply Hrequeue. reflexivity.
Defined.

(** X21. [agent_finish_job] is called by [__yara_task] only on the evidence
    of a read of the job made after the scan: if the call occurs, it is the
    last call, it occurs once, and the call before it is a [get_job] that
    returned a snapshot with status [processing] and
    [files_processed == total_files]. *)
Theorem yara_task_finish_guard {W} (h : Handler W) w a job it :
  let o := run h w a (yara_task job it) in
  calls finished_job (trace o) = []
  ∨ exists t j2 r,
      trace o = t ++ [Inter (GetJob job) (inr j2); Inter (AgentFinishJob job) r]
      ∧ status j2 = "processing"
      ∧ files_processed j2 = total_files j2
      ∧ calls finished_job t = [].
Proof.
  cbv zeta. remember (run h w a (yara_task job it)) as o eqn:Ho.
  destruct (h _ (GetJob job) w) as [w1 [e|j]] eqn:Hget.
  { left. subst o. unfold yara_task. by rewrite run_mbind, run_call, Hget. }
  destruct (decide (status j ∈ final_statuses)) as [Hst|Hst].
  { left. subst o. unfold yara_task. rewrite run_mbind, (run_call_ok h _ _ _ _ _ Hget).
    unfold and_then; cbn [result world self trace logs].
    by destruct (decide (status j ∈ final_statuses)). }
  destruct (h _ (UrsaPop it (batch_size j)) w1) as [w2 [e|pop]] eqn:Hpop.
  { left. subst o. unfold yara_task. rewrite run_mbind, (run_call_ok h _ _ _ _ _ Hget).
    unfold and_then at 1; cbn [result world self trace logs].
    destruct (decide (status j ∈ final_statuses)); [done|].
    by rewrite run_mbind, run_call, Hpop. }
  rewrite (run_yara_task_popped h w w1 w2 a job it j pop Hget Hst Hpop) in Ho.
  rewrite run_mbind in Ho.
  assert (calls finished_job
            (trace (run h w2 a
                      (if iterator_empty pop then Ret tt
                       else a0 ← get_self; call (AgentStartJob (group_id a0) job it))))
          = []) as Hq1.
  { destruct (iterator_empty pop); [done|].
    rewrite run_mbind, run_get_self. unfold and_then; cbn [result world self trace logs].
    rewrite after_nil, run_call. done. }
  destruct (run h w2 a (if iterator_empty pop then _ else _)) as [w3 a3 t3 l3 [e|[]]];
    cbn [trace] in Hq1; unfold and_then at 1 in Ho;
    cbn [result world self trace logs] in Ho.
  { left. subst o. unfold after; cbn [trace app].
    change (?i1 :: ?i2 :: t3) with ([i1; i2] ++ t3). by rewrite calls_app, Hq1. }
  rewrite run_mbind in Ho.
  assert (calls finished_job
            (trace (run h w3 a3
                      (match files pop with
                       | [] => Ret tt
                       | _ :: _ => execute_yara job (files pop)
                       end))) = []) as Hq2.
  { destruct (files pop); [done|].
    apply (calls_excluded is_scan_call); [by intros X []|].
    apply calls_only_run, execute_yara_calls. }
  destruct (run h w3 a3 (match files pop with [] => _ | _ :: _ => _ end))
    as [w4 a4 t4 l4 [e|[]]];
    cbn [trace] in Hq2; unfold and_then at 1 in Ho;
    cbn [result world self trace logs] in Ho.
  { left. subst o. unfold after; cbn [trace app].
    change (?i1 :: ?i2 :: ?t) with ([i1; i2] ++ t). by rewrite !calls_app, Hq1, Hq2. }
  unfold finish_if_done in Ho. rewrite run_mbind, run_call in Ho.
  destruct (h _ (GetJob job) w4) as [w5 [e|j2]];
    unfold and_then in Ho; cbn [result world self trace logs fst snd] in Ho.
  { left. subst o. unfold after; cbn [trace app].
    change (?i1 :: ?i2 :: ?t) with ([i1; i2] ++ t). by rewrite !calls_app, Hq1, Hq2. }
  destruct (bool_decide (status j2 = "processing")
            && bool_decide (files_processed j2 = total_files j2)) eqn:Hb.
  2: { left. subst o. unfold after; cbn [run trace app].
       change (?i1 :: ?i2 :: ?t) with ([i1; i2] ++ t). by rewrite !calls_app, Hq1, Hq2. }
  apply andb_prop in Hb as [Hst2 Hdone].
  apply bool_decide_eq_true_1 in Hst2, Hdone.
  right. rewrite run_call in Ho.
  exists ([Inter (GetJob job) (inr j); Inter (UrsaPop it (batch_size j)) (inr pop)]
          ++ t3 ++ t4), j2, (h _ (AgentFinishJob job) w5).2.
  subst o. unfold after; cbn [trace]. rewrite !calls_app, Hq1, Hq2.
  split; [|done]. by rewrite <- !app_assoc.
Qed.

(** X22. A pop that returns no file starts no scan: the rule is not
    compiled, no batch is opened and nothing is reported; the calls of the
    task are then the two reads of the job, the pop and at most the
    re-enqueueing and the finishing. *)
Theorem yara_task_empty_pop {W} (h : Handler W) w w1 w2 a job it j pop :
  h _ (GetJob job) w = (w1, inr j) ->
  status j ∉ final_statuses ->
  h _ (UrsaPop it (batch_size j)) w1 = (w2, inr pop) ->
  files pop = [] ->
  let o := run h w a (yara_task job it) in
  forallb (satisfies is_queue_call) (trace o) = true
  ∧ (length (trace o) <= 5)%nat.
Proof.
  intros Hget Hst Hpop Hfiles. cbv zeta.
  rewrite (run_yara_task_popped h w w1 w2 a job it j pop Hget Hst Hpop), Hfiles.
  unfold finish_if_done. simpl.
  destruct (iterator_empty pop); simpl.
  - destruct (h _ (GetJob job) w2) as [w3 [e|j2]]; simpl; [split; [done|lia]|].
    destruct (_ && _); simpl; [|split; [done|lia]].
    destruct (h _ (AgentFinishJob job) w3) as [w4 [e|[]]]; simpl; split; done || lia.
  - destruct (h _ (AgentStartJob (group_id a) job it) w2) as [w3 [e|[]]]; simpl;
      [split; [done|lia]|].
    destruct (h _ (GetJob job) w3) as [w4 [e|j2]]; simpl; [split; [done|lia]|].
    destruct (_ && _); simpl; [|split; [done|lia]].
    destruct (h _ (AgentFinishJob job) w4) as [w5 [e|[]]]; simpl; split; done || lia.
Qed.

Lemma yara_task_empty_pop_witness :
  let o := run Model.handle
             (Scenario.world_with (Scenario.mk_job "processing" 5 5 0) 1 "it" [])
             Scenario.agent0 (yara_task Scenario.job_id0 "it") in
  forallb (satisfies is_queue_call) (trace o) = true ∧ (length (trace o) <= 5)%nat.
Proof.
  apply (yara_task_empty_pop Model.handle
           (Scenario.world_with (Scenario.mk_job "processing" 5 5 0) 1 "it" [])
           (Scenario.world_with (Scenario.mk_job "processing" 5 5 0) 1 "it" [])
           (Model.set_iterators (insert "it" [])
              (Scenario.world_with (Scenario.mk_job "processing" 5 5 0) 1 "it" []))
           Scenario.agent0 Scenario.job_id0 "it"
           (Scenario.mk_job "processing" 5 5 0) (MkPopResult [] true)).
  - reflexivity.
  - by_decide.
  - vm_compute. reflexivity.
  - reflexivity.
Defined.

(** ** [main_loop] *)

(** The group and the configuration version a task is asked for with. *)
Definition task_fetch X (ev : Event X) : option (string * Z) :=
  match ev with AgentGetTask group version => Some (group, version) | _ => None end.

(** Every iteration starts by asking for a task, for the agent's group and
    with the version the agent holds. *)
Lemma run_main_loop_iterations_head {W} (h : Handler W) plugins w a n :
  exists r t,
    trace (run h w a (main_loop_iterations plugins (S n)))
    = Inter (AgentGetTask (group_id a) (plugin_config_version a)) r :: t.
Proof.
  cbn [main_loop_iterations]. rewrite run_mbind. unfold main_loop_iteration.
  rewrite run_mbind, run_get_self. unfold and_then at 2.
  cbn [result world self trace logs]. rewrite after_nil, run_mbind, run_call.
  destruct (h _ (AgentGetTask (group_id a) (plugin_config_version a)) w) as [w' r].
  cbn [fst snd]. exists r. destruct r as [e|task].
  - by exists [].
  - unfold and_then at 2; cbn [result world self trace logs].
    rewrite and_then_after. unfold after; cbn [trace app]. by eexists.
Qed.

(** X23. The agent registers before it asks for work.  When
    [__initialize_agent] raises, [main_loop] ends with that exception
    without having asked for a task.  When it returns, the first call
    after the registration is [agent_get_task], for the agent's group and
    with the configuration version read at the start of the
    initialisation. *)
Theorem main_loop_registers_before_fetching {W} (h : Handler W) plugins w a n :
  let init := run h w a (initialize_agent plugins) in
  let o := run h w a (main_loop plugins (S n)) in
  (forall e,
     result init = inl e ->
     o = MkOutcome (world init) (self init) (trace init) (logs init) (inl e)
     ∧ calls task_fetch (trace o) = [])
  ∧ (result init = inr tt ->
     exists v r t,
       head (trace init) = Some (Inter GetPluginConfigVersion (inr v))
       ∧ calls task_fetch (trace init) = []
       ∧ trace o = trace init ++ Inter (AgentGetTask (group_id a) v) r :: t).
Proof.
  cbv zeta.
  pose proof (calls_only_run _ h _ w a (initialize_agent_calls plugins)) as Hcalls.
  apply (calls_excluded is_init_call task_fetch) in Hcalls; [|by intros X []].
  split.
  - intros e Hres.
    assert (run h w a (main_loop plugins (S n))
            = MkOutcome (world (run h w a (initialize_agent plugins)))
                (self (run h w a (initialize_agent plugins)))
                (trace (run h w a (initialize_agent plugins)))
                (logs (run h w a (initialize_agent plugins))) (inl e)) as ->.
    { unfold main_loop. rewrite run_mbind. unfold and_then. by rewrite Hres. }
    done.
  - intros Hres.
    destruct (run_initialize_agent_registers h plugins w a Hres)
      as (t0 & v & Htrace & _ & _ & Hhead & Hself & _).
    exists v.
    assert (head (trace (run h w a (initialize_agent plugins)))
            = Some (Inter GetPluginConfigVersion (inr v))) as Hhead'.
    { rewrite Htrace. by destruct t0. }
    destruct (run_main_loop_iterations_head h plugins
                (world (run h w a (initialize_agent plugins)))
                (self (run h w a (initialize_agent plugins))) n) as (r & t & Hloop).
    rewrite Hself in Hloop at 2 3.
    cbn [group_id plugin_config_version set_active_plugins set_plugin_config_version]
      in Hloop.
    exists r, t. split; [done|]. split; [done|].
    unfold main_loop. rewrite run_mbind. unfold and_then. rewrite Hres.
    unfold after; cbn [trace]. by rewrite Hloop.
Qed.

Lemma main_loop_registers_before_fetching_witness :
  let init := run Model.handle (Scenario.new_job_world []) Scenario.agent0
                (initialize_agent [Scenario.plugin0]) in
  let o := run Model.handle (Scenario.new_job_world []) Scenario.agent0
             (main_loop [Scenario.plugin0] 1) in
  exists v r t,
    head (trace init) = Some (Inter GetPluginConfigVersion (inr v))
    ∧ calls task_fetch (trace init) = []
    ∧ trace o = trace init ++ Inter (AgentGetTask "default" v) r :: t.
Proof.
  apply (main_loop_registers_before_fetching Model.handle [Scenario.plugin0]
           (Scenario.new_job_world []) Scenario.agent0 0).
  vm_compute. reflexivity.
Defined.

(** X24. A task of an unknown type ends the agent: the [RuntimeError]
    raised by the dispatcher is caught nowhere, so however many iterations
    were still to come, the loop stops after that one [agent_get_task]
    with ["Unsupported queue"]. *)
Theorem main_loop_unsupported_task_ends_loop {W} (h : Handler W) plugins w w1 a name d n :
  h _ (AgentGetTask (group_id a) (plugin_config_version a)) w
  = (w1, inr (MkAgentTask (OtherTask name) d)) ->
  run h w a (main_loop_iterations plugins (S n))
  = MkOutcome w1 a
      [Inter (AgentGetTask (group_id a) (plugin_config_version a))
         (inr (MkAgentTask (OtherTask name) d))]
      [] (inl (MkExn RuntimeError "Unsupported queue")).
Proof.
  intros Hget. cbn [main_loop_iterations]. rewrite run_mbind.
  unfold main_loop_iteration. rewrite run_mbind, run_get_self.
  unfold and_then at 2; cbn [result world self trace logs].
  rewrite after_nil, run_mbind, (run_call_ok h _ _ _ _ _ Hget).
  reflexivity.
Qed.

(** A queue that holds a task of another kind before the SEARCH task. *)
Definition stray_task_world : Model.World :=
  Model.set_queues
    (insert "default" [MkAgentTask (OtherTask "index") "";
                       MkAgentTask SEARCH (job_key Scenario.job_id0)])
    (Scenario.new_job_world []).

Lemma main_loop_unsupported_task_ends_loop_witness :
  let o := run Model.handle stray_task_world Scenario.agent0
             (main_loop_iterations [] 3) in
  result o = inl (MkExn RuntimeError "Unsupported queue")
  ∧ calls task_fetch (trace o) = [("default", 1)].
Proof.
  cbv zeta.
  erewrite (main_loop_unsupported_task_ends_loop Model.handle [] stray_task_world _
              Scenario.agent0 "index" "" 2); [|vm_compute; reflexivity].
  split; reflexivity.
Defined.

(** ** The batch size: what it never exceeds *)

(** X25. The batch never exceeds the number of files already taken, nor a
    quarter of the files left, unless that bound is below [MIN_BATCH]; and
    it never exceeds the number of files left unless fewer than
    [MIN_BATCH] are left.  So the only case in which the agent asks the
    backend for more files than remain is the last stretch of fewer than
    ten files, where it asks for ten. *)
Theorem batch_size_limits (j : Job) :
  let taken := files_processed j + files_in_progress j in
  let remaining := total_files j - taken in
  batch_size j ≤ Z.max MIN_BATCH_SIZE taken
  ∧ batch_size j ≤ Z.max MIN_BATCH_SIZE (remaining / 4)
  ∧ (MIN_BATCH_SIZE ≤ remaining -> batch_size j ≤ remaining)
  ∧ (remaining < batch_size j -> batch_size j = MIN_BATCH_SIZE).
Proof.
  cbv zeta. unfold batch_size, MIN_BATCH_SIZE, MAX_BATCH_SIZE.
  set (taken := files_processed j + files_in_progress j).
  set (remaining := total_files j - taken).
  pose proof (Z.div_mod remaining 4 ltac:(lia)) as Hdiv.
  pose proof (Z.mod_pos_bound remaining 4 ltac:(lia)) as Hmod.
  repeat split; lia.
Qed.

Lemma batch_size_limits_witness :
  batch_size (Scenario.mk_job "processing" 1000 320 0) ≤ 680
  ∧ batch_size (Scenario.mk_job "processing" 1000 995 0) = 10.
Proof.
  split.
  - apply (batch_size_limits (Scenario.mk_job "processing" 1000 320 0)).
    vm_compute. discriminate.
  - apply (batch_size_limits (Scenario.mk_job "processing" 1000 995 0)).
    vm_compute. reflexivity.
Defined.

(** ** RELOAD tasks are handled outside any [try] *)

(** X26. A failure of the store during a RELOAD task leaves the dispatcher:
    when the read of the stored version raises, or when it returns a new
    version and [reload_configuration] raises, the exception is the result
    of [__process_task].  In the second case the agent has logged the
    reload but has not started to reinitialise: its plugins and its cached
    version are what they were. *)
Theorem reload_errors_escape {W} (h : Handler W) (plugins : list PluginClass) w w1 a d e :
  (h _ GetPluginConfigVersion w = (w1, inl e) ->
   run h w a (process_task plugins (MkAgentTask RELOAD d))
   = MkOutcome w1 a [Inter GetPluginConfigVersion (inl e)] [] (inl e))
  ∧ (forall v w2,
       h _ GetPluginConfigVersion w = (w1, inr v) ->
       plugin_config_version a <> v ->
       h _ (ReloadConfiguration (plugin_config_version a)) w1 = (w2, inl e) ->
       run h w a (process_task plugins (MkAgentTask RELOAD d))
       = MkOutcome w2 a
           [Inter GetPluginConfigVersion (inr v);
            Inter (ReloadConfiguration (plugin_config_version a)) (inl e)]
           [reload_info_log] (inl e)).
Proof.
  split.
  - intros Hread. unfold process_task; cbn [type]. simpl. rewrite Hread. reflexivity.
  - intros v w2 Hread Hne Hreload. unfold process_task; cbn [type]. simpl.
    rewrite Hread. simpl. destruct (decide (plugin_config_version a = v)); [done|].
    simpl. rewrite Hreload. reflexivity.
Qed.

Lemma reload_errors_escape_witness :
  run unreachable_store tt Scenario.agent0 (process_task [] (MkAgentTask RELOAD ""))
  = MkOutcome tt Scenario.agent0
      [Inter GetPluginConfigVersion (inl (MkExn OtherException "connection refused"))] []
      (inl (MkExn OtherException "connection refused")).
Proof.
  apply (reload_errors_escape unreachable_store [] tt tt Scenario.agent0 ""
           (MkExn OtherException "connection refused")).
  reflexivity.
Defined.

